(** * Recipe Reader: a shallow embedding of [src/app/page.tsx]

    The component [RecipeTTSApp] keeps its data in React state cells,
    in [localStorage] and in the browser's [speechSynthesis] engine.
    This file embeds the handlers of the component as functions over
    an explicit state and proves the properties of the specification
    about them. *)

From stdpp Require Import base decidable option list gmap strings pretty.
From Stdlib Require Import ZArith Lia ZifyBool Ascii.

Local Open Scope Z_scope.

(** ** ECMAScript strings

    A JavaScript string is a sequence of 16-bit code units. *)

Abbreviation jsstring := (list N).

(** The code units of an ASCII literal. *)
Definition lit (s : string) : jsstring :=
  N_of_ascii <$> String.list_ascii_of_string s.
Arguments lit : simpl never.

(** [WhiteSpace] and [LineTerminator] of ECMA-262, the code points
    that [String.prototype.trim] strips. *)
Definition isWhiteSpace (c : N) : bool :=
  ((c =? 9) || (c =? 10) || (c =? 11) || (c =? 12) || (c =? 13)
   || (c =? 32) || (c =? 160) || (c =? 5760)
   || ((8192 <=? c) && (c <=? 8202))
   || (c =? 8232) || (c =? 8233) || (c =? 8239) || (c =? 8287)
   || (c =? 12288) || (c =? 65279))%N.

Fixpoint trimStart (s : jsstring) : jsstring :=
  match s with
  | c :: s' => if isWhiteSpace c then trimStart s' else s
  | [] => []
  end.

Definition trimEnd (s : jsstring) : jsstring := rev (trimStart (rev s)).

(** [s.trim()] *)
Definition trim (s : jsstring) : jsstring := trimEnd (trimStart s).

(** JavaScript truthiness of a string: only the empty string is falsy. *)
Definition truthy (s : jsstring) : bool :=
  match s with [] => false | _ => true end.

(** ** Dates

    [Date.now()] is a reading of the clock, in milliseconds since the
    epoch; the readings are inputs of the handlers that take them. *)

(** [n.toString()] for an integer time value: its decimal digits. *)
Definition Number_toString (n : Z) : jsstring := lit (pretty n).

(** [pad k n]: the last [k] decimal digits of [n], most significant
    first. *)
Fixpoint pad (k : nat) (n : Z) : jsstring :=
  match k with
  | O => []
  | S k' => pad k' (n / 10) ++ [Z.to_N (48 + n mod 10)]
  end.

(** The civil date of a day number (days since 1970-01-01), in the
    proleptic Gregorian calendar. *)
Definition civil_from_days (days : Z) : Z * Z * Z :=
  let z := days + 719468 in
  let era := z / 146097 in
  let doe := z - era * 146097 in
  let yoe := (doe - doe / 1460 + doe / 36524 - doe / 146096) / 365 in
  let doy := doe - (365 * yoe + yoe / 4 - yoe / 100) in
  let mp := (5 * doy + 2) / 153 in
  let d := doy - (153 * mp + 2) / 5 + 1 in
  let m := if mp <? 10 then mp + 3 else mp - 9 in
  let y := yoe + era * 400 + (if m <=? 2 then 1 else 0) in
  (y, m, d).

(** [new Date(t).toISOString()]: [YYYY-MM-DDTHH:mm:ss.sssZ], with the
    expanded year [±YYYYYY] outside 0..9999. *)
Definition Date_toISOString (t : Z) : jsstring :=
  let '(y, m, d) := civil_from_days (t / 86400000) in
  let ms := t mod 86400000 in
  let year :=
    if (0 <=? y) && (y <=? 9999) then pad 4 y
    else (if y <? 0 then lit "-" else lit "+") ++ pad 6 (Z.abs y) in
  year ++ lit "-" ++ pad 2 m ++ lit "-" ++ pad 2 d ++ lit "T"
    ++ pad 2 (ms / 3600000) ++ lit ":" ++ pad 2 (ms / 60000 mod 60)
    ++ lit ":" ++ pad 2 (ms / 1000 mod 60) ++ lit "." ++ pad 3 (ms mod 1000)
    ++ lit "Z".

Local Close Scope Z_scope.

(** ** Data model *)

Module Recipe.
Record t := mk {
  id : jsstring;
  title : jsstring;
  content : jsstring;
  createdAt : jsstring }.
End Recipe.

Module TTSSettings.
Record t {number : Type} := mk {
  rate : number;
  pitch : number;
  volume : number;
  voice : jsstring }.
Arguments t : clear implicits.

(** [{ ...prev, rate: v }] and its siblings. *)
Definition with_rate {number} (v : number) (prev : t number) : t number :=
  mk number v (pitch prev) (volume prev) (voice prev).
Definition with_pitch {number} (v : number) (prev : t number) : t number :=
  mk number (rate prev) v (volume prev) (voice prev).
Definition with_volume {number} (v : number) (prev : t number) : t number :=
  mk number (rate prev) (pitch prev) v (voice prev).
Definition with_voice {number} (v : jsstring) (prev : t number) : t number :=
  mk number (rate prev) (pitch prev) (volume prev) v.
End TTSSettings.

Module Voice.
(** [SpeechSynthesisVoice] *)
Record t := mk { name : jsstring; lang : jsstring }.
End Voice.

Module Utterance.
(** [SpeechSynthesisUtterance]. [uid] is the identity of the object:
    two utterances built by two [new] expressions differ. *)
Record t {number : Type} := mk {
  uid : nat;
  text : jsstring;
  rate : number;
  pitch : number;
  volume : number;
  voice : option Voice.t }.
Arguments t : clear implicits.
End Utterance.

Module Toast.
Record t := mk {
  title : jsstring;
  description : jsstring;
  variant : option jsstring }.
End Toast.

(** The exceptions a handler can raise. *)
Inductive exn := SyntaxError.

(** How a handler leaves this model: it throws, or [JSON.parse]
    returned a value that the model does not read as a value of the
    type the component declares for it (a value of another shape, or
    one that the typed reading does not cover). The component goes on
    with what was returned, without a check; the model does not follow
    it from there. *)
Inductive abort :=
| Thrown (e : exn)
| Unmodelled.

(** [JSON.stringify] and [JSON.parse]. [JSON_parse s] is the value
    [JSON.parse] returns on [s], where the model reads it as a value
    of the type the component uses it at, and [None] elsewhere: there
    [JSON_accepts s] says whether [JSON.parse] returns a value all the
    same, or throws a [SyntaxError]. *)
Class JSON (A : Type) := {
  JSON_stringify : A -> jsstring;
  JSON_parse : jsstring -> option A;
  JSON_accepts : jsstring -> bool }.

(** How [JSON.parse] fails to give a value of the type on [s]. *)
Definition refusal {A} `{!JSON A} (s : jsstring) : abort :=
  if JSON_accepts (A := A) s then Unmodelled else Thrown SyntaxError.

(** What the platform guarantees of the two: a value that was
    serialised parses back to itself, and no serialisation is the
    empty string. *)
Class JSONLaws (A : Type) `{JSON A} : Prop := {
  JSON_parse_stringify : forall a : A, JSON_parse (JSON_stringify a) = Some a;
  JSON_stringify_truthy : forall a : A, truthy (JSON_stringify a) = true }.

(** ** A reference implementation of [JSON]

    The texts [JSON.stringify] produces for the two values the
    component stores, a parser that reads these texts back as values,
    and a recogniser of the JSON grammar, which tells of every other
    text whether [JSON.parse] returns on it or throws. Numbers are the
    decimal numbers with one fractional digit, the values the sliders
    of the form produce (their step is 0.1), counted in tenths: [15]
    is 1.5. *)
Module RefJSON.

(** The number 1. *)
Definition one : N := 10.

Definition isDigit (c : N) : bool := ((48 <=? c) && (c <=? 57))%N.

Definition hexDigit (d : N) : N := (if d <? 10 then 48 + d else 87 + d)%N.

Definition hexValue (c : N) : option N :=
  (if (48 <=? c) && (c <=? 57) then Some (c - 48)
   else if (97 <=? c) && (c <=? 102) then Some (c - 87)
   else if (65 <=? c) && (c <=? 70) then Some (c - 55)
   else None)%N.

(** [\uXXXX] *)
Definition unicodeEscape (c : N) : jsstring :=
  [92; 117; hexDigit (c / 4096); hexDigit (c / 256 mod 16);
   hexDigit (c / 16 mod 16); hexDigit (c mod 16)]%N.

Definition isLeadingSurrogate (c : N) : bool :=
  ((55296 <=? c) && (c <=? 56319))%N.

Definition isTrailingSurrogate (c : N) : bool :=
  ((56320 <=? c) && (c <=? 57343))%N.

(** One code unit that is not part of a surrogate pair, as
    [QuoteJSONString] writes it. *)
Definition quoteUnit (c : N) : jsstring :=
  (if c =? 8 then [92; 98]
   else if c =? 9 then [92; 116]
   else if c =? 10 then [92; 110]
   else if c =? 12 then [92; 102]
   else if c =? 13 then [92; 114]
   else if c =? 34 then [92; 34]
   else if c =? 92 then [92; 92]
   else if (c <? 32) || isLeadingSurrogate c || isTrailingSurrogate c
     then unicodeEscape c
   else [c])%N.

Fixpoint quoteChars (s : jsstring) : jsstring :=
  match s with
  | [] => []
  | c :: rest =>
      match rest with
      | d :: rest' =>
          if isLeadingSurrogate c && isTrailingSurrogate d
          then c :: d :: quoteChars rest'
          else quoteUnit c ++ quoteChars rest
      | [] => quoteUnit c
      end
  end.

(** [QuoteJSONString] *)
Definition quote (s : jsstring) : jsstring := [34%N] ++ quoteChars s ++ [34%N].

Definition unescape (e : N) : option N :=
  (if e =? 34 then Some 34
   else if e =? 92 then Some 92
   else if e =? 47 then Some 47
   else if e =? 98 then Some 8
   else if e =? 102 then Some 12
   else if e =? 110 then Some 10
   else if e =? 114 then Some 13
   else if e =? 116 then Some 9
   else None)%N.

Definition consUnit (c : N) (r : option (jsstring * jsstring))
    : option (jsstring * jsstring) :=
  match r with
  | Some (v, rest) => Some (c :: v, rest)
  | None => None
  end.

(** The characters of a string literal and its closing quote; the
    result is the string and the text after the quote. *)
Fixpoint parseChars (s : jsstring) : option (jsstring * jsstring) :=
  match s with
  | [] => None
  | c :: rest =>
      if (c =? 34)%N then Some ([], rest)
      else if (c =? 92)%N then
        match rest with
        | e :: rest1 =>
            if (e =? 117)%N then
              match rest1 with
              | h1 :: h2 :: h3 :: h4 :: rest2 =>
                  match hexValue h1, hexValue h2, hexValue h3, hexValue h4 with
                  | Some a, Some b, Some c', Some d =>
                      consUnit (4096 * a + 256 * b + 16 * c' + d)%N
                        (parseChars rest2)
                  | _, _, _, _ => None
                  end
              | _ => None
              end
            else
              match unescape e with
              | Some u => consUnit u (parseChars rest1)
              | None => None
              end
        | [] => None
        end
      else if (c <? 32)%N then None
      else consUnit c (parseChars rest)
  end.

(** [expect p s]: [s] without its prefix [p]. *)
Definition expect (p s : jsstring) : option jsstring :=
  if bool_decide (take (length p) s = p) then Some (drop (length p) s)
  else None.

Definition parseString (s : jsstring) : option (jsstring * jsstring) :=
  s1 ← expect [34%N] s; parseChars s1.

(** A number in tenths. *)
Definition printNumber (n : N) : jsstring :=
  lit (pretty (n / 10)%N)
  ++ (if (n mod 10 =? 0)%N then [] else [46; 48 + n mod 10]%N).

Definition digitsValue (ds : jsstring) : N :=
  fold_left (fun a c => 10 * a + (c - 48))%N ds 0%N.

Fixpoint spanDigits (s : jsstring) : jsstring * jsstring :=
  match s with
  | c :: rest =>
      if isDigit c then let '(ds, r) := spanDigits rest in (c :: ds, r)
      else ([], s)
  | [] => ([], [])
  end.

Definition parseNumber (s : jsstring) : option (N * jsstring) :=
  let '(ds, rest) := spanDigits s in
  match ds with
  | [] => None
  | d0 :: ds' =>
      if (d0 =? 48)%N && negb (bool_decide (ds' = [])) then None
      else
        let int := digitsValue ds in
        match rest with
        | dot :: f :: rest' =>
            if (dot =? 46)%N then
              if (49 <=? f)%N && (f <=? 57)%N
                 && negb (match rest' with c :: _ => isDigit c | [] => false end)
              then Some (10 * int + (f - 48), rest')%N
              else None
            else Some (10 * int, rest)%N
        | _ => Some (10 * int, rest)%N
        end
  end.

(** ["k":] *)
Definition key (k : string) : jsstring := [34%N] ++ lit k ++ [34; 58]%N.

Definition printRecipe (r : Recipe.t) : jsstring :=
  lit "{" ++ key "id" ++ quote (Recipe.id r)
  ++ lit "," ++ key "title" ++ quote (Recipe.title r)
  ++ lit "," ++ key "content" ++ quote (Recipe.content r)
  ++ lit "," ++ key "createdAt" ++ quote (Recipe.createdAt r) ++ lit "}".

Definition parseRecipe (s : jsstring) : option (Recipe.t * jsstring) :=
  s ← expect (lit "{" ++ key "id") s;
  '(id, s) ← parseString s;
  s ← expect (lit "," ++ key "title") s;
  '(title, s) ← parseString s;
  s ← expect (lit "," ++ key "content") s;
  '(content, s) ← parseString s;
  s ← expect (lit "," ++ key "createdAt") s;
  '(createdAt, s) ← parseString s;
  s ← expect (lit "}") s;
  Some (Recipe.mk id title content createdAt, s).

(** The elements of an array after the first, and the closing
    bracket. *)
Fixpoint printItems (rs : list Recipe.t) : jsstring :=
  match rs with
  | [] => lit "]"
  | r :: rs' => lit "," ++ printRecipe r ++ printItems rs'
  end.

Definition printRecipes (rs : list Recipe.t) : jsstring :=
  match rs with
  | [] => lit "[]"
  | r :: rs' => lit "[" ++ printRecipe r ++ printItems rs'
  end.

Fixpoint parseItems (fuel : nat) (s : jsstring)
    : option (list Recipe.t * jsstring) :=
  match fuel with
  | O => None
  | S fuel' =>
      match s with
      | c :: s1 =>
          if (c =? 93)%N then Some ([], s1)
          else if (c =? 44)%N then
            '(r, s2) ← parseRecipe s1;
            '(rs, s3) ← parseItems fuel' s2;
            Some (r :: rs, s3)
          else None
      | [] => None
      end
  end.

Definition parseRecipes (s : jsstring) : option (list Recipe.t) :=
  s1 ← expect (lit "[") s;
  match s1 with
  | [c] => if (c =? 93)%N then Some [] else None
  | _ =>
      '(r, s2) ← parseRecipe s1;
      '(rs, s3) ← parseItems (S (length s2)) s2;
      match s3 with [] => Some (r :: rs) | _ => None end
  end.

Definition printSettings (t : TTSSettings.t N) : jsstring :=
  lit "{" ++ key "rate" ++ printNumber (TTSSettings.rate t)
  ++ lit "," ++ key "pitch" ++ printNumber (TTSSettings.pitch t)
  ++ lit "," ++ key "volume" ++ printNumber (TTSSettings.volume t)
  ++ lit "," ++ key "voice" ++ quote (TTSSettings.voice t) ++ lit "}".

Definition parseSettings (s : jsstring) : option (TTSSettings.t N) :=
  s ← expect (lit "{" ++ key "rate") s;
  '(rate, s) ← parseNumber s;
  s ← expect (lit "," ++ key "pitch") s;
  '(pitch, s) ← parseNumber s;
  s ← expect (lit "," ++ key "volume") s;
  '(volume, s) ← parseNumber s;
  s ← expect (lit "," ++ key "voice") s;
  '(voice, s) ← parseString s;
  match s with
  | [c] => if (c =? 125)%N then Some (TTSSettings.mk N rate pitch volume voice)
           else None
  | _ => None
  end.

(** *** The JSON grammar *)

(** The white space of JSON: space, line feed, carriage return, tab. *)
Definition isWs (c : N) : bool :=
  ((c =? 32) || (c =? 10) || (c =? 13) || (c =? 9))%N.

Fixpoint skipWs (s : jsstring) : jsstring :=
  match s with
  | c :: r => if isWs c then skipWs r else s
  | [] => []
  end.

Fixpoint skipDigits (s : jsstring) : jsstring :=
  match s with
  | c :: r => if isDigit c then skipDigits r else s
  | [] => []
  end.

(** One digit or more. *)
Definition skipDigits1 (s : jsstring) : option jsstring :=
  match s with
  | c :: r => if isDigit c then Some (skipDigits r) else None
  | [] => None
  end.

(** [0], or digits that do not start with [0]. *)
Definition skipInt (s : jsstring) : option jsstring :=
  match s with
  | c :: r =>
      if (c =? 48)%N then Some r
      else if isDigit c then Some (skipDigits r) else None
  | [] => None
  end.

Definition skipFrac (s : jsstring) : option jsstring :=
  match s with
  | c :: r => if (c =? 46)%N then skipDigits1 r else Some s
  | [] => Some s
  end.

Definition skipSign (s : jsstring) : jsstring :=
  match s with
  | c :: r => if ((c =? 43) || (c =? 45))%N then r else s
  | [] => []
  end.

Definition skipExp (s : jsstring) : option jsstring :=
  match s with
  | c :: r =>
      if ((c =? 101) || (c =? 69))%N then skipDigits1 (skipSign r) else Some s
  | [] => Some s
  end.

Definition skipMinus (s : jsstring) : jsstring :=
  match s with
  | c :: r => if (c =? 45)%N then r else s
  | [] => []
  end.

Definition skipNumber (s : jsstring) : option jsstring :=
  s1 ← skipInt (skipMinus s); s2 ← skipFrac s1; skipExp s2.

Definition skipString (s : jsstring) : option jsstring :=
  snd <$> parseChars s.

(** What [skip] reads: a value, the elements of an array after its
    bracket, the members of an object after its brace. *)
Inductive part := Value | Elements | Members.

(** [skip fuel p s]: the text after the part [p] at the start of [s],
    if [s] starts with one. *)
Fixpoint skip (fuel : nat) (p : part) (s : jsstring) : option jsstring :=
  match fuel with
  | O => None
  | S fuel' =>
      match p with
      | Value =>
          match skipWs s with
          | [] => None
          | c :: r =>
              if (c =? 123)%N then
                match skipWs r with
                | d :: r' =>
                    if (d =? 125)%N then Some r'
                    else skip fuel' Members (d :: r')
                | [] => None
                end
              else if (c =? 91)%N then
                match skipWs r with
                | d :: r' =>
                    if (d =? 93)%N then Some r'
                    else skip fuel' Elements (d :: r')
                | [] => None
                end
              else if (c =? 34)%N then skipString r
              else if (c =? 116)%N then expect (lit "true") (c :: r)
              else if (c =? 102)%N then expect (lit "false") (c :: r)
              else if (c =? 110)%N then expect (lit "null") (c :: r)
              else skipNumber (c :: r)
          end
      | Elements =>
          r ← skip fuel' Value s;
          match skipWs r with
          | c :: r' =>
              if (c =? 44)%N then skip fuel' Elements r'
              else if (c =? 93)%N then Some r' else None
          | [] => None
          end
      | Members =>
          match skipWs s with
          | c :: r =>
              if (c =? 34)%N then
                r1 ← skipString r;
                match skipWs r1 with
                | d :: r2 =>
                    if (d =? 58)%N then
                      r3 ← skip fuel' Value r2;
                      match skipWs r3 with
                      | e :: r4 =>
                          if (e =? 44)%N then skip fuel' Members r4
                          else if (e =? 125)%N then Some r4 else None
                      | [] => None
                      end
                    else None
                | [] => None
                end
              else None
          | [] => None
          end
      end
  end.

(** The texts of the JSON grammar, on which [JSON.parse] returns; it
    throws a [SyntaxError] on every other text. Every call of [skip]
    but one in two reads a character. *)
Definition isJSON (s : jsstring) : bool :=
  match skip (3 * length s + 3) Value s with
  | Some r => match skipWs r with [] => true | _ => false end
  | None => false
  end.

Definition recipes : JSON (list Recipe.t) :=
  {| JSON_stringify := printRecipes;
     JSON_parse := parseRecipes;
     JSON_accepts := isJSON |}.

Definition settings : JSON (TTSSettings.t N) :=
  {| JSON_stringify := printSettings;
     JSON_parse := parseSettings;
     JSON_accepts := isJSON |}.

End RefJSON.

(** ** The component *)

Section RecipeTTSApp.

Context {number : Type}.
(** The number [1]. *)
Context (one : number).
Context `{!JSON (list Recipe.t)} `{!JSON (TTSSettings.t number)}.

(** The state cells of the component, one per [useState]. *)
Record State := mkState {
  recipe : jsstring;
  recipeTitle : jsstring;
  savedRecipes : list Recipe.t;
  isPlaying : bool;
  isPaused : bool;
  currentUtterance : option (Utterance.t number);
  availableVoices : list Voice.t;
  showSettings : bool;
  ttsSettings : TTSSettings.t number }.

(** The values the cells are initialised with. *)
Definition initialState : State := {|
  recipe := [];
  recipeTitle := [];
  savedRecipes := [];
  isPlaying := false;
  isPaused := false;
  currentUtterance := None;
  availableVoices := [];
  showSettings := false;
  ttsSettings := TTSSettings.mk number one one one [] |}.

(** The calls made on [speechSynthesis], oldest first. *)
Inductive Call :=
| Cancel
| Speak (u : Utterance.t number)
| Pause
| Resume.

(** What lies outside the component.

    [queue] and [paused] are the state of [speechSynthesis] as the Web
    Speech API defines it: [speak] appends to the queue, [cancel]
    empties it, [pause] and [resume] set and clear the paused flag;
    the utterances in the queue are the ones pending or being spoken.
    [calls] records the calls in order. [voices] is what [getVoices()]
    returns. [onvoiceschanged] holds the render whose [loadVoices] is
    registered as the handler, if one is. *)
Record World := mkWorld {
  localStorage : gmap jsstring jsstring;
  queue : list (Utterance.t number);
  paused : bool;
  calls : list Call;
  voices : list Voice.t;
  onvoiceschanged : option State;
  toasts : list Toast.t;
  nextUid : nat }.

(** *** Handlers

    A handler runs inside the render that created it: it reads the
    state cells of that render (its closure) and queues updates, which
    React applies in order to the pending state before the next render.
    [ttsSet] records that [setTTSSettings] installed a new object, the
    dependency of the persisting effect. *)
Record Pending := mkPending {
  next : State;
  world : World;
  ttsSet : bool }.

Definition Handler (A : Type) : Type :=
  State -> Pending -> abort + (A * Pending).

#[local] Instance Handler_ret : MRet Handler :=
  fun A a _ p => inr (a, p).

#[local] Instance Handler_bind : MBind Handler :=
  fun A B f m c p =>
    match m c p with
    | inl e => inl e
    | inr (a, p') => f a c p'
    end.

Definition leave {A} (a : abort) : Handler A := fun _ _ => inl a.

(** The state cells as the handler's closure holds them. *)
Definition closure : Handler State :=
  fun c p => inr (c, p).

Definition update (f : State -> State) : Handler unit :=
  fun _ p => inr (tt, mkPending (f (next p)) (world p) (ttsSet p)).

Definition effect (f : World -> World) : Handler unit :=
  fun _ p => inr (tt, mkPending (next p) (f (world p)) (ttsSet p)).

Definition observe {A} (f : World -> A) : Handler A :=
  fun _ p => inr (f (world p), p).

(** The setters returned by [useState]. *)
Definition setRecipe (v : jsstring) : Handler unit :=
  update (fun s => mkState v (recipeTitle s) (savedRecipes s) (isPlaying s)
    (isPaused s) (currentUtterance s) (availableVoices s) (showSettings s)
    (ttsSettings s)).

Definition setRecipeTitle (v : jsstring) : Handler unit :=
  update (fun s => mkState (recipe s) v (savedRecipes s) (isPlaying s)
    (isPaused s) (currentUtterance s) (availableVoices s) (showSettings s)
    (ttsSettings s)).

Definition setSavedRecipes (v : list Recipe.t) : Handler unit :=
  update (fun s => mkState (recipe s) (recipeTitle s) v (isPlaying s)
    (isPaused s) (currentUtterance s) (availableVoices s) (showSettings s)
    (ttsSettings s)).

Definition setIsPlaying (v : bool) : Handler unit :=
  update (fun s => mkState (recipe s) (recipeTitle s) (savedRecipes s) v
    (isPaused s) (currentUtterance s) (availableVoices s) (showSettings s)
    (ttsSettings s)).

Definition setIsPaused (v : bool) : Handler unit :=
  update (fun s => mkState (recipe s) (recipeTitle s) (savedRecipes s)
    (isPlaying s) v (currentUtterance s) (availableVoices s) (showSettings s)
    (ttsSettings s)).

Definition setCurrentUtterance (v : option (Utterance.t number)) : Handler unit :=
  update (fun s => mkState (recipe s) (recipeTitle s) (savedRecipes s)
    (isPlaying s) (isPaused s) v (availableVoices s) (showSettings s)
    (ttsSettings s)).

Definition setAvailableVoices (v : list Voice.t) : Handler unit :=
  update (fun s => mkState (recipe s) (recipeTitle s) (savedRecipes s)
    (isPlaying s) (isPaused s) (currentUtterance s) v (showSettings s)
    (ttsSettings s)).

Definition setShowSettings (v : bool) : Handler unit :=
  update (fun s => mkState (recipe s) (recipeTitle s) (savedRecipes s)
    (isPlaying s) (isPaused s) (currentUtterance s) (availableVoices s) v
    (ttsSettings s)).

(** [setTTSSettings((prev) => f(prev))]: the updater is applied to the
    pending value, and its result is a new object. *)
Definition setTTSSettings_with
    (f : TTSSettings.t number -> TTSSettings.t number) : Handler unit :=
  fun _ p =>
    let s := next p in
    inr (tt, mkPending
      (mkState (recipe s) (recipeTitle s) (savedRecipes s) (isPlaying s)
        (isPaused s) (currentUtterance s) (availableVoices s) (showSettings s)
        (f (ttsSettings s)))
      (world p) true).

(** [setTTSSettings(v)] *)
Definition setTTSSettings (v : TTSSettings.t number) : Handler unit :=
  setTTSSettings_with (fun _ => v).

(** [localStorage] *)
Definition localStorage_getItem (k : jsstring) : Handler (option jsstring) :=
  observe (fun w => localStorage w !! k).

Definition localStorage_setItem (k v : jsstring) : Handler unit :=
  effect (fun w => mkWorld (<[k := v]> (localStorage w)) (queue w) (paused w)
    (calls w) (voices w) (onvoiceschanged w) (toasts w) (nextUid w)).

(** [JSON.parse(s)], used at the type [A]: it throws on a text it
    cannot parse, and what it returns is not checked. *)
Definition parse {A} `{!JSON A} (s : jsstring) : Handler A :=
  match JSON_parse s with
  | Some a => mret a
  | None => leave (refusal (A := A) s)
  end.

(** [speechSynthesis] *)
Definition speechSynthesis_cancel : Handler unit :=
  effect (fun w => mkWorld (localStorage w) [] (paused w)
    (calls w ++ [Cancel]) (voices w) (onvoiceschanged w) (toasts w) (nextUid w)).

Definition speechSynthesis_speak (u : Utterance.t number) : Handler unit :=
  effect (fun w => mkWorld (localStorage w) (queue w ++ [u]) (paused w)
    (calls w ++ [Speak u]) (voices w) (onvoiceschanged w) (toasts w) (nextUid w)).

Definition speechSynthesis_pause : Handler unit :=
  effect (fun w => mkWorld (localStorage w) (queue w) true
    (calls w ++ [Pause]) (voices w) (onvoiceschanged w) (toasts w) (nextUid w)).

Definition speechSynthesis_resume : Handler unit :=
  effect (fun w => mkWorld (localStorage w) (queue w) false
    (calls w ++ [Resume]) (voices w) (onvoiceschanged w) (toasts w) (nextUid w)).

Definition speechSynthesis_getVoices : Handler (list Voice.t) :=
  observe voices.

(** [speechSynthesis.onvoiceschanged = h], for a handler [h] created in
    the running render. *)
Definition speechSynthesis_set_onvoiceschanged : Handler unit :=
  fun c p =>
    let w := world p in
    inr (tt, mkPending (next p)
      (mkWorld (localStorage w) (queue w) (paused w) (calls w) (voices w)
        (Some c) (toasts w) (nextUid w))
      (ttsSet p)).

(** [new SpeechSynthesisUtterance(text)] with the four assignments that
    follow it in [startSpeech]. *)
Definition new_SpeechSynthesisUtterance (text : jsstring)
    (rate pitch volume : number) (voice : option Voice.t)
    : Handler (Utterance.t number) :=
  fun _ p =>
    let w := world p in
    inr (Utterance.mk number (nextUid w) text rate pitch volume voice,
         mkPending (next p)
           (mkWorld (localStorage w) (queue w) (paused w) (calls w) (voices w)
             (onvoiceschanged w) (toasts w) (S (nextUid w)))
           (ttsSet p)).

(** [toast({ title, description, variant })] *)
Definition toast (t : Toast.t) : Handler unit :=
  effect (fun w => mkWorld (localStorage w) (queue w) (paused w) (calls w)
    (voices w) (onvoiceschanged w) (toasts w ++ [t]) (nextUid w)).

Definition destructive : option jsstring := Some (lit "destructive").

(** [if (s) { k(s) }] for [s : string | null] *)
Definition whenTruthy (o : option jsstring) (k : jsstring -> Handler unit)
    : Handler unit :=
  match o with
  | Some s => if truthy s then k s else mret tt
  | None => mret tt
  end.

(** *** Effects *)

Definition loadVoices : Handler unit :=
  c ← closure;
  voices ← speechSynthesis_getVoices;
  setAvailableVoices voices;;
  match voices with
  | v0 :: _ =>
      if negb (truthy (TTSSettings.voice (ttsSettings c)))
      then setTTSSettings_with (TTSSettings.with_voice (Voice.name v0))
      else mret tt
  | [] => mret tt
  end.

(** The effect with no dependencies: it runs once, after the first
    render. *)
Definition useEffect_mount : Handler unit :=
  saved ← localStorage_getItem (lit "savedRecipes");
  whenTruthy saved (fun s => v ← parse s; setSavedRecipes v);;
  savedSettings ← localStorage_getItem (lit "ttsSettings");
  whenTruthy savedSettings (fun s => v ← parse s; setTTSSettings v);;
  loadVoices;;
  speechSynthesis_set_onvoiceschanged.

(** The effect that depends on [ttsSettings]. *)
Definition useEffect_persist : Handler unit :=
  c ← closure;
  localStorage_setItem (lit "ttsSettings") (JSON_stringify (ttsSettings c)).

(** *** Recipe library *)

Definition toast_Error : Toast.t :=
  Toast.mk (lit "Error")
    (lit "Please enter both a title and recipe content") destructive.

Definition toast_Success : Toast.t :=
  Toast.mk (lit "Success") (lit "Recipe saved successfully!") None.

(** [now] is the value of [Date.now()] and [date] the time value of
    [new Date()] when the handler runs. *)
Definition saveRecipe (now date : Z) : Handler unit :=
  c ← closure;
  if negb (truthy (trim (recipeTitle c))) || negb (truthy (trim (recipe c)))
  then toast toast_Error
  else
    let newRecipe :=
      Recipe.mk (Number_toString now) (recipeTitle c) (recipe c)
        (Date_toISOString date) in
    let updatedRecipes := savedRecipes c ++ [newRecipe] in
    setSavedRecipes updatedRecipes;;
    localStorage_setItem (lit "savedRecipes") (JSON_stringify updatedRecipes);;
    toast toast_Success.

Definition loadRecipe (selectedRecipe : Recipe.t) : Handler unit :=
  setRecipeTitle (Recipe.title selectedRecipe);;
  setRecipe (Recipe.content selectedRecipe);;
  toast (Toast.mk (lit "Recipe Loaded")
    (lit "Loaded " ++ [34%N] ++ Recipe.title selectedRecipe ++ [34%N]) None).

Definition deleteRecipe (id : jsstring) : Handler unit :=
  c ← closure;
  let updatedRecipes :=
    List.filter (fun r => negb (bool_decide (Recipe.id r = id)))
      (savedRecipes c) in
  setSavedRecipes updatedRecipes;;
  localStorage_setItem (lit "savedRecipes") (JSON_stringify updatedRecipes);;
  toast (Toast.mk (lit "Recipe Deleted") (lit "Recipe has been removed") None).

(** *** Playback *)

Definition toast_NoContent : Toast.t :=
  Toast.mk (lit "No Content") (lit "Please enter a recipe to read aloud")
    destructive.

Definition toast_SpeechError : Toast.t :=
  Toast.mk (lit "Speech Error")
    (lit "An error occurred during speech synthesis") destructive.

Definition startSpeech : Handler unit :=
  c ← closure;
  if negb (truthy (trim (recipe c))) then toast toast_NoContent
  else if isPaused c && bool_decide (is_Some (currentUtterance c)) then
    speechSynthesis_resume;;
    setIsPaused false;;
    setIsPlaying true
  else
    speechSynthesis_cancel;;
    let selectedVoice :=
      List.find
        (fun voice =>
           bool_decide (Voice.name voice = TTSSettings.voice (ttsSettings c)))
        (availableVoices c) in
    utterance ← new_SpeechSynthesisUtterance (recipe c)
      (TTSSettings.rate (ttsSettings c)) (TTSSettings.pitch (ttsSettings c))
      (TTSSettings.volume (ttsSettings c)) selectedVoice;
    setCurrentUtterance (Some utterance);;
    speechSynthesis_speak utterance.

(** The three callbacks [startSpeech] installs on the utterance. *)
Definition utterance_onstart : Handler unit :=
  setIsPlaying true;;
  setIsPaused false.

Definition utterance_onend : Handler unit :=
  setIsPlaying false;;
  setIsPaused false;;
  setCurrentUtterance None.

Definition utterance_onerror : Handler unit :=
  setIsPlaying false;;
  setIsPaused false;;
  setCurrentUtterance None;;
  toast toast_SpeechError.

Definition pauseSpeech : Handler unit :=
  c ← closure;
  if isPlaying c then
    speechSynthesis_pause;;
    setIsPlaying false;;
    setIsPaused true
  else mret tt.

Definition stopSpeech : Handler unit :=
  speechSynthesis_cancel;;
  setIsPlaying false;;
  setIsPaused false;;
  setCurrentUtterance None.

(** *** The inline handlers of the form *)

Definition toggleSettings : Handler unit :=
  c ← closure;
  setShowSettings (negb (showSettings c)).

Definition setRate (v : number) : Handler unit :=
  setTTSSettings_with (TTSSettings.with_rate v).

Definition setPitch (v : number) : Handler unit :=
  setTTSSettings_with (TTSSettings.with_pitch v).

Definition setVolume (v : number) : Handler unit :=
  setTTSSettings_with (TTSSettings.with_volume v).

Definition setVoice (v : jsstring) : Handler unit :=
  setTTSSettings_with (TTSSettings.with_voice v).

(** *** Renders

    [dispatch c h st w] runs the handler [h], created in the render
    with state [c], when the component's state is [st]; React then
    renders the pending state, and the persisting effect of the new
    render runs when [ttsSettings] is a new object. *)
Definition dispatch (c : State) (h : Handler unit) (st : State) (w : World)
    : abort + (State * World) :=
  match h c (mkPending st w false) with
  | inl e => inl e
  | inr (_, p) =>
      if ttsSet p then
        match useEffect_persist (next p) (mkPending (next p) (world p) false) with
        | inl e => inl e
        | inr (_, p') => inr (next p', world p')
        end
      else inr (next p, world p)
  end.

(** A handler of the current render. *)
Definition handle (h : Handler unit) (st : State) (w : World)
    : abort + (State * World) :=
  dispatch st h st w.

(** Mounting the component: the first render has the initial state,
    and both effects run after it, in the order of their declaration. *)
Definition mount (w : World) : abort + (State * World) :=
  dispatch initialState (useEffect_mount;; useEffect_persist) initialState w.

(** The world a freshly loaded page finds: the stored entries and the
    voice catalog are what they are, nothing is being spoken. *)
Definition freshWorld (stored : gmap jsstring jsstring) (catalog : list Voice.t)
    : World :=
  mkWorld stored [] false [] catalog None [] 0.

(** What can happen to a mounted component. *)
Inductive Event :=
| ChangeTitle (v : jsstring)
| ChangeRecipe (v : jsstring)
| ClickSave (now date : Z)
| ClickLoad (r : Recipe.t)
| ClickDelete (id : jsstring)
| ClickStart
| ClickPause
| ClickStop
| ClickSettings
| SlideRate (v : number)
| SlidePitch (v : number)
| SlideVolume (v : number)
| SelectVoice (v : jsstring)
(** the catalog changes and the platform calls [onvoiceschanged] *)
| VoicesChanged (catalog : list Voice.t)
(** the engine calls a callback of an utterance *)
| OnStart
| OnEnd
| OnError
(** the engine is done with the utterance at the head of its queue *)
| Dequeue.

Definition set_voices (catalog : list Voice.t) (w : World) : World :=
  mkWorld (localStorage w) (queue w) (paused w) (calls w) catalog
    (onvoiceschanged w) (toasts w) (nextUid w).

Definition dequeue (w : World) : World :=
  mkWorld (localStorage w) (tail (queue w)) (paused w) (calls w) (voices w)
    (onvoiceschanged w) (toasts w) (nextUid w).

Definition step (e : Event) (st : State) (w : World) : abort + (State * World) :=
  match e with
  | ChangeTitle v => handle (setRecipeTitle v) st w
  | ChangeRecipe v => handle (setRecipe v) st w
  | ClickSave now date => handle (saveRecipe now date) st w
  | ClickLoad r => handle (loadRecipe r) st w
  | ClickDelete id => handle (deleteRecipe id) st w
  | ClickStart => handle startSpeech st w
  | ClickPause => handle pauseSpeech st w
  | ClickStop => handle stopSpeech st w
  | ClickSettings => handle toggleSettings st w
  | SlideRate v => handle (setRate v) st w
  | SlidePitch v => handle (setPitch v) st w
  | SlideVolume v => handle (setVolume v) st w
  | SelectVoice v => handle (setVoice v) st w
  | VoicesChanged catalog =>
      match onvoiceschanged w with
      | Some c => dispatch c loadVoices st (set_voices catalog w)
      | None => inr (st, set_voices catalog w)
      end
  | OnStart => handle utterance_onstart st w
  | OnEnd => handle utterance_onend st w
  | OnError => handle utterance_onerror st w
  | Dequeue => inr (st, dequeue w)
  end.

(** The states a component can be in: it was mounted on a fresh page,
    and events followed. *)
Inductive reachable : State -> World -> Prop :=
| reachable_mount stored catalog st w :
    mount (freshWorld stored catalog) = inr (st, w) ->
    reachable st w
| reachable_step e st w st' w' :
    reachable st w ->
    step e st w = inr (st', w') ->
    reachable st' w'.

(** The playback state the two flags encode. *)
Inductive PlaybackState := Idle | Playing | Paused.

Definition flags (s : PlaybackState) : bool * bool :=
  match s with
  | Idle => (false, false)
  | Playing => (true, false)
  | Paused => (false, true)
  end.

Definition playback (st : State) : option PlaybackState :=
  match isPlaying st, isPaused st with
  | false, false => Some Idle
  | true, false => Some Playing
  | false, true => Some Paused
  | true, true => None
  end.

(** The world after a toast. *)
Definition toasted (t : Toast.t) (w : World) : World :=
  mkWorld (localStorage w) (queue w) (paused w) (calls w) (voices w)
    (onvoiceschanged w) (toasts w ++ [t]) (nextUid w).

(** What holds of a mounted component: the flags are not both set,
    the engine holds at most one utterance, every utterance it holds
    was built before the next one will be, and the registered
    [loadVoices] is the one of the first render. *)
Definition invariant (st : State) (w : World) : Prop :=
  isPlaying st && isPaused st = false
  /\ length (queue w) <= 1
  /\ Forall (fun u => Utterance.uid u < nextUid w) (queue w)
  /\ onvoiceschanged w = Some initialState.

(** What the mount effect reads from a stored entry: the default when
    the entry is absent or empty, the parsed value when [JSON.parse]
    returns one of the type, nothing otherwise. *)
Definition loaded {A} `{!JSON A} (stored : gmap jsstring jsstring)
    (k : jsstring) (default : A) : option A :=
  match stored !! k with
  | Some s => if truthy s then JSON_parse s else Some default
  | None => Some default
  end.

(** The events that set a preference. *)
Definition isPreferenceChange (e : Event) : bool :=
  match e with
  | SlideRate _ | SlidePitch _ | SlideVolume _ | SelectVoice _ => true
  | _ => false
  end.

(** A run of events. *)
Fixpoint run (es : list Event) (st : State) (w : World)
    : abort + (State * World) :=
  match es with
  | [] => inr (st, w)
  | e :: es' =>
      match step e st w with
      | inl x => inl x
      | inr (st', w') => run es' st' w'
      end
  end.

(** A session: the component mounts on a fresh page and the events
    follow. *)
Definition session (stored : gmap jsstring jsstring) (catalog : list Voice.t)
    (es : list Event) : abort + (State * World) :=
  match mount (freshWorld stored catalog) with
  | inl x => inl x
  | inr (st, w) => run es st w
  end.

(** *** What the render offers

    The [disabled] attributes of the four buttons, and the parts of
    the form that are rendered only in some states. *)
Definition startDisabled (st : State) : bool := isPlaying st.

Definition pauseDisabled (st : State) : bool := negb (isPlaying st).

Definition stopDisabled (st : State) : bool :=
  negb (isPlaying st) && negb (isPaused st).

Definition saveDisabled (st : State) : bool :=
  negb (truthy (trim (recipeTitle st))) || negb (truthy (trim (recipe st))).

(** The events the rendered form lets the user make: a click on a
    button that is not disabled, [Load] and [Delete] on a listed
    recipe, the sliders when the settings are shown, the voice picker
    when there are voices too, with one of the listed names. What the
    platform and the engine do is not the form's to offer. *)
Definition offered (e : Event) (st : State) : Prop :=
  match e with
  | ClickSave _ _ => saveDisabled st = false
  | ClickLoad r => r ∈ savedRecipes st
  | ClickDelete id => id ∈ Recipe.id <$> savedRecipes st
  | ClickStart => startDisabled st = false
  | ClickPause => pauseDisabled st = false
  | ClickStop => stopDisabled st = false
  | SlideRate _ | SlidePitch _ | SlideVolume _ => showSettings st = true
  | SelectVoice v =>
      showSettings st = true /\ v ∈ Voice.name <$> availableVoices st
  | _ => True
  end.

(** The states a component reaches when the user acts through the
    form only. *)
Inductive reachable_by_form : State -> World -> Prop :=
| by_form_mount stored catalog st w :
    mount (freshWorld stored catalog) = inr (st, w) ->
    reachable_by_form st w
| by_form_step e st w st' w' :
    reachable_by_form st w ->
    offered e st ->
    step e st w = inr (st', w') ->
    reachable_by_form st' w'.

(** Every event of a run is offered by the form when it comes. *)
Fixpoint offered_run (es : list Event) (st : State) (w : World) : Prop :=
  match es with
  | [] => True
  | e :: es' =>
      offered e st
      /\ match step e st w with
         | inr (st', w') => offered_run es' st' w'
         | inl _ => False
         end
  end.

(** A session whose events are all offered by the form. *)
Definition form_session (stored : gmap jsstring jsstring)
    (catalog : list Voice.t) (es : list Event) : Prop :=
  match mount (freshWorld stored catalog) with
  | inr (st, w) => offered_run es st w
  | inl _ => False
  end.

(** In a log of engine calls, every [speak] comes directly after a
    [cancel]. *)
Definition speak_follows_cancel (cs : list Call) : Prop :=
  forall i u, cs !! i = Some (Speak u) ->
  exists j, i = S j /\ cs !! j = Some Cancel.

(** A recipe whose title and content are not blank. *)
Definition filledIn (r : Recipe.t) : Prop :=
  forallb isWhiteSpace (Recipe.title r) = false
  /\ forallb isWhiteSpace (Recipe.content r) = false.

(** [r.id !== id], the test of the filter in [deleteRecipe]. *)
Definition keeps (id : jsstring) (r : Recipe.t) : bool :=
  negb (bool_decide (Recipe.id r = id)).

Definition toast_Deleted : Toast.t :=
  Toast.mk (lit "Recipe Deleted") (lit "Recipe has been removed") None.

End RecipeTTSApp.

Arguments State : clear implicits.
Arguments World : clear implicits.
Arguments Pending : clear implicits.
Arguments Call : clear implicits.
Arguments Event : clear implicits.
Arguments Handler : clear implicits.

(** ** Sample data

    The component on the reference implementation of [JSON], with
    numbers in tenths. *)

Definition alice : Voice.t := Voice.mk (lit "Alice") (lit "en-US").
Definition bob : Voice.t := Voice.mk (lit "Bob") (lit "en-GB").

Definition soup : jsstring := lit "Boil the water.".

(** The preferences of the first render: rate, pitch and volume 1. *)
Definition defaults : TTSSettings.t N := TTSSettings.mk N 10%N 10%N 10%N [].

(** Sessions of the component on the reference [JSON]. *)
Definition ref_session (stored : gmap jsstring jsstring)
    (catalog : list Voice.t) (es : list (Event N))
    : abort + (State N * World N) :=
  @session N RefJSON.one RefJSON.recipes RefJSON.settings stored catalog es.

(** [after s P]: the session [s] ends without an exception, in a
    state and a world that satisfy [P]. *)
Definition after (s : abort + (State N * World N))
    (P : State N -> World N -> Prop) : Prop :=
  match s with
  | inr (st, w) => P st w
  | inl _ => False
  end.

(** 2023-11-14T22:13:20.000Z *)
Definition noon : Z := 1700000000000.

Definition session_blank : abort + (State N * World N) :=
  ref_session ∅ [] [ChangeTitle (lit "Soup"); ChangeRecipe (lit "   ")].

Definition session_ready : abort + (State N * World N) :=
  ref_session ∅ [] [ChangeTitle (lit "Soup"); ChangeRecipe soup].

Definition session_saved_twice : abort + (State N * World N) :=
  ref_session ∅ []
    [ChangeTitle (lit "Soup"); ChangeRecipe soup;
     ClickSave noon noon; ClickSave noon noon].

Definition session_playing : abort + (State N * World N) :=
  ref_session ∅ [] [ChangeRecipe soup; ClickStart; OnStart].

Definition session_paused : abort + (State N * World N) :=
  ref_session ∅ [] [ChangeRecipe soup; ClickStart; OnStart; ClickPause].

Definition session_paused_blank : abort + (State N * World N) :=
  ref_session ∅ []
    [ChangeRecipe soup; ClickStart; OnStart; ClickPause; ChangeRecipe []].

Definition session_voice_chosen : abort + (State N * World N) :=
  ref_session ∅ [] [VoicesChanged [alice; bob]; SelectVoice (lit "Bob")].

Definition session_voice_refreshed : abort + (State N * World N) :=
  ref_session ∅ []
    [VoicesChanged [alice; bob]; SelectVoice (lit "Bob");
     VoicesChanged [alice; bob]].

Definition session_preferences_set : abort + (State N * World N) :=
  ref_session ∅ [alice; bob] [SelectVoice (lit "Bob"); SlideRate 15%N].

Definition events_saved : list (Event N) :=
  [ChangeTitle (lit "Soup"); ChangeRecipe soup; ClickSave noon noon].

Definition session_saved : abort + (State N * World N) :=
  ref_session ∅ [] events_saved.

Definition session_idle_voices : abort + (State N * World N) :=
  ref_session ∅ [alice; bob] [ChangeRecipe soup].

(** ** Properties *)

(** *** The functions of the platform on known values *)

Example trim_inner_space :
  trim (lit "  Boil the water. ") = lit "Boil the water.".
Proof. vm_compute. reflexivity. Qed.

Example trim_unicode_space :
  trim [160; 8232; 65279; 97; 12288]%N = [97%N].
Proof. vm_compute. reflexivity. Qed.

Example toISOString_epoch :
  Date_toISOString 0%Z = lit "1970-01-01T00:00:00.000Z".
Proof. vm_compute. reflexivity. Qed.

Example toISOString_2023 :
  Date_toISOString 1700000000123%Z = lit "2023-11-14T22:13:20.123Z".
Proof. vm_compute. reflexivity. Qed.

Example toISOString_leap :
  Date_toISOString 1709251199999%Z = lit "2024-02-29T23:59:59.999Z".
Proof. vm_compute. reflexivity. Qed.

Example toISOString_before_epoch :
  Date_toISOString (-1)%Z = lit "1969-12-31T23:59:59.999Z".
Proof. vm_compute. reflexivity. Qed.

Example Number_toString_now :
  Number_toString 1700000000123%Z = lit "1700000000123".
Proof. vm_compute. reflexivity. Qed.

Example stringify_defaults :
  RefJSON.printSettings defaults =
  lit "{" ++ RefJSON.key "rate" ++ lit "1," ++ RefJSON.key "pitch" ++ lit "1,"
    ++ RefJSON.key "volume" ++ lit "1," ++ RefJSON.key "voice"
    ++ [34; 34]%N ++ lit "}".
Proof. vm_compute. reflexivity. Qed.

Example parse_not_json : RefJSON.parseRecipes (lit "{not json") = None.
Proof. vm_compute. reflexivity. Qed.

(** Texts on which [JSON.parse] returns. *)
Example isJSON_accepts :
  forallb RefJSON.isJSON
    [lit "null"; lit "[ ]"; lit "{}"; lit " true "; lit "-0.5e+10";
     lit "0.30000000000000004"; lit "[1, [2, {}], false]";
     lit "{" ++ RefJSON.key "a" ++ lit " [1,2,{" ++ RefJSON.key "b"
       ++ lit "null}] , " ++ RefJSON.key "c" ++ RefJSON.quote (lit "x") ++ lit "}";
     RefJSON.quote [92; 10; 55357]%N;
     RefJSON.printSettings defaults;
     RefJSON.printRecipes [Recipe.mk (lit "1") (lit "Soup") soup (lit "now")]]
  = true.
Proof. vm_compute. reflexivity. Qed.

(** Texts on which [JSON.parse] throws. *)
Example isJSON_rejects :
  existsb RefJSON.isJSON
    [lit "{not json"; lit ""; lit " "; lit "[1,]"; lit "01"; lit "1."; lit "-";
     lit ".5"; lit "tru"; lit "nul"; lit "[1 2]"; lit "{}{}"; lit "[";
     lit "{" ++ RefJSON.key "a" ++ lit "1,}";
     lit "{a:1}"; [34; 97]%N; [34; 10; 34]%N; [34; 92; 120; 34]%N;
     lit "undefined"; lit "NaN"; lit "+1"; lit "1e"; lit "0x10"]
  = false.
Proof. vm_compute. reflexivity. Qed.

Section Properties.

Context {number : Type} (one : number).
Context `{!JSON (list Recipe.t)} `{!JSON (TTSSettings.t number)}.

Implicit Types (st : State number) (w : World number).

(** *** Blank strings *)

Lemma trimStart_nil (s : jsstring) :
  trimStart s = [] <-> forallb isWhiteSpace s = true.
Proof.
  induction s as [|c s IH]; simpl; [tauto|].
  destruct (isWhiteSpace c); simpl; [exact IH|].
  split; discriminate.
Qed.

Lemma trim_nil (s : jsstring) :
  trim s = [] <-> forallb isWhiteSpace s = true.
Proof.
  unfold trim, trimEnd. split.
  - intros E. apply trimStart_nil.
    destruct (trimStart s) as [|c t] eqn:Et; [reflexivity|].
    apply (f_equal (@rev N)) in E. rewrite rev_involutive in E. simpl in E.
    apply trimStart_nil in E. rewrite forallb_forall in E.
    assert (Hin : In c (rev (c :: t))) by (apply in_rev; rewrite rev_involutive; left; reflexivity).
    pose proof (E _ Hin) as Hc.
    clear E Hin. revert Et. clear -Hc. induction s as [|d s IH]; simpl; [discriminate|].
    destruct (isWhiteSpace d) eqn:Ed; [exact IH|].
    intros [= -> _]. congruence.
  - intros E. apply trimStart_nil in E. rewrite E. reflexivity.
Qed.

Lemma truthy_trim (s : jsstring) :
  truthy (trim s) = negb (forallb isWhiteSpace s).
Proof.
  destruct (forallb isWhiteSpace s) eqn:E.
  - apply trim_nil in E. rewrite E. reflexivity.
  - destruct (trim s) eqn:Et; [|reflexivity].
    apply trim_nil in Et. congruence.
Qed.

(** *** Unfolding handlers *)

Ltac unfold_handlers :=
  cbv beta delta
    [step mount handle dispatch mbind mret Handler_bind Handler_ret closure
     update effect observe leave whenTruthy parse
     startSpeech pauseSpeech stopSpeech utterance_onstart utterance_onend
     utterance_onerror saveRecipe loadRecipe deleteRecipe toggleSettings
     setRate setPitch setVolume setVoice loadVoices useEffect_persist
     useEffect_mount setRecipe setRecipeTitle setSavedRecipes setIsPlaying
     setIsPaused setCurrentUtterance setAvailableVoices setShowSettings
     setTTSSettings setTTSSettings_with localStorage_getItem
     localStorage_setItem speechSynthesis_cancel speechSynthesis_speak
     speechSynthesis_pause speechSynthesis_resume speechSynthesis_getVoices
     speechSynthesis_set_onvoiceschanged new_SpeechSynthesisUtterance toast
     freshWorld set_voices dequeue];
  cbn [next world ttsSet recipe recipeTitle savedRecipes isPlaying isPaused
       currentUtterance availableVoices showSettings ttsSettings localStorage
       queue paused calls voices onvoiceschanged toasts nextUid].

(** *** Invariants of the mounted component *)

Lemma mount_invariant stored catalog st w :
  mount one (freshWorld stored catalog) = inr (st, w) -> invariant one st w.
Proof.
  unfold_handlers.
  destruct (stored !! lit "savedRecipes") as [s1|];
    [destruct (truthy s1); [destruct (JSON_parse s1)|]|].
  all: cbn; try discriminate.
  all: destruct (stored !! lit "ttsSettings") as [s2|];
    [destruct (truthy s2); [destruct (JSON_parse s2)|]|].
  all: cbn; try discriminate.
  all: destruct catalog; simpl; intros [= <- <-]; repeat split; simpl;
    solve [lia | constructor].
Qed.

Lemma step_invariant e st w st' w' :
  invariant one st w -> step e st w = inr (st', w') -> invariant one st' w'.
Proof.
  intros (Hf & Hq & Hu & Hv).
  destruct e; unfold_handlers; rewrite ?truthy_trim.
  all: repeat match goal with
       | |- context [forallb isWhiteSpace ?s] =>
           destruct (forallb isWhiteSpace s)
       | |- context [isPaused ?s && bool_decide ?P] =>
           destruct (isPaused s && bool_decide P)
       | |- context [if isPlaying ?s then _ else _] =>
           destruct (isPlaying s) eqn:?
       end.
  all: try rewrite Hv.
  all: try destruct catalog.
  all: simpl; intros [= <- <-]; repeat split; simpl; try assumption; try lia.
  all: try solve [constructor; [simpl; lia | constructor] | constructor].
  - destruct (queue w); simpl in *; lia.
  - destruct (queue w); simpl; [constructor|]. inversion Hu; assumption.
Qed.

Lemma reachable_invariant st w : reachable one st w -> invariant one st w.
Proof.
  induction 1 as [stored catalog st w Hm | e st w st' w' _ IH Hs].
  - exact (mount_invariant _ _ _ _ Hm).
  - exact (step_invariant _ _ _ _ _ IH Hs).
Qed.

Lemma playback_flags st s :
  playback st = Some s <-> flags s = (isPlaying st, isPaused st).
Proof.
  unfold playback. destruct s, (isPlaying st), (isPaused st); simpl;
    split; congruence.
Qed.

Lemma playback_defined st :
  isPlaying st && isPaused st = false -> exists s, playback st = Some s.
Proof.
  unfold playback. destruct (isPlaying st), (isPaused st); simpl;
    try discriminate; eauto.
Qed.

(** *** Playback *)

(** C10: in every state the mounted component reaches, and so after
    every operation and every engine callback, [isPlaying] and
    [isPaused] are not both true: the pair of flags is the encoding of
    exactly one of [Idle], [Playing] and [Paused]. *)
Theorem flags_encode_one_playback_state st w :
  reachable one st w ->
  isPlaying st && isPaused st = false
  /\ exists s, flags s = (isPlaying st, isPaused st)
       /\ forall s', flags s' = (isPlaying st, isPaused st) -> s' = s.
Proof.
  intros Hr. destruct (reachable_invariant _ _ Hr) as (Hf & _).
  split; [exact Hf|].
  destruct (playback_defined _ Hf) as [s Hs]. exists s.
  split; [apply playback_flags; exact Hs|].
  intros s' Hs'. apply playback_flags in Hs'. congruence.
Qed.

(** C1: the engine of a mounted component never holds more than one
    utterance; and when [startSpeech] runs in state [Playing] on a
    text that is not blank, it calls [cancel] before it calls [speak],
    so that the engine then holds the new utterance alone, an object
    that was not in the engine before. *)
Theorem one_active_utterance st w :
  reachable one st w ->
  length (queue w) <= 1
  /\ (playback st = Some Playing ->
      forallb isWhiteSpace (recipe st) = false ->
      exists u st' w',
        handle startSpeech st w = inr (st', w')
        /\ calls w' = calls w ++ [Cancel; Speak u]
        /\ queue w' = [u]
        /\ (u ∉ queue w)
        /\ currentUtterance st' = Some u
        /\ reachable one st' w').
Proof.
  intros Hr. destruct (reachable_invariant _ _ Hr) as (_ & Hq & Hu & _).
  split; [exact Hq|]. intros Hp Hb.
  assert (Hflags : isPlaying st = true /\ isPaused st = false).
  { apply playback_flags in Hp. simpl in Hp. split; congruence. }
  destruct Hflags as [_ Hpaused].
  assert (Hstep : exists u st' w',
    handle startSpeech st w = inr (st', w')
    /\ calls w' = calls w ++ [Cancel; Speak u]
    /\ queue w' = [u] /\ Utterance.uid u = nextUid w
    /\ currentUtterance st' = Some u).
  { unfold_handlers. rewrite truthy_trim, Hb, Hpaused. simpl.
    eexists _, _, _. split; [reflexivity|]. simpl.
    rewrite <- app_assoc. repeat split. }
  destruct Hstep as (u & st' & w' & Hh & Hc & Hq' & Hid & Hcur).
  exists u, st', w'. repeat split; try assumption.
  - intros Hin. rewrite Forall_forall in Hu. apply Hu in Hin. lia.
  - eapply reachable_step with (e := ClickStart); [exact Hr|exact Hh].
Qed.

(** C5: when the text of the editor is empty or made of white space
    only, [startSpeech] shows the "No Content" error and does nothing
    else: the state of the component is unchanged (so [Idle] remains
    [Idle]), no utterance is built and [speechSynthesis] is not
    called. *)
Theorem startSpeech_blank st w :
  forallb isWhiteSpace (recipe st) = true ->
  exists w',
    handle startSpeech st w = inr (st, w')
    /\ w' = toasted toast_NoContent w
    /\ calls w' = calls w /\ queue w' = queue w /\ nextUid w' = nextUid w.
Proof.
  intros Hb. exists (toasted toast_NoContent w).
  unfold_handlers. rewrite truthy_trim, Hb. repeat split.
Qed.

(** C7: [pauseSpeech] in state [Idle] or [Paused] changes nothing;
    [stopSpeech] in any state cancels the speech of the engine and
    leaves the component [Idle] with no current utterance. *)
Theorem pause_noop_stop_idle st w :
  (playback st = Some Idle \/ playback st = Some Paused ->
   handle pauseSpeech st w = inr (st, w))
  /\ exists st' w',
       handle stopSpeech st w = inr (st', w')
       /\ playback st' = Some Idle
       /\ currentUtterance st' = None
       /\ queue w' = []
       /\ calls w' = calls w ++ [Cancel].
Proof.
  split.
  - intros Hp.
    assert (Hnot : isPlaying st = false).
    { destruct Hp as [Hp|Hp]; apply playback_flags in Hp; simpl in Hp;
        congruence. }
    unfold_handlers. rewrite Hnot. reflexivity.
  - unfold_handlers. eexists _, _. split; [reflexivity|]. repeat split.
Qed.


(** What a preference change leaves alone. *)
Lemma preference_change_frame e st w st' w' :
  isPreferenceChange e = true ->
  step e st w = inr (st', w') ->
  recipe st' = recipe st /\ isPlaying st' = isPlaying st
  /\ isPaused st' = isPaused st
  /\ currentUtterance st' = currentUtterance st
  /\ queue w' = queue w /\ paused w' = paused w /\ calls w' = calls w
  /\ nextUid w' = nextUid w.
Proof.
  destruct e; try discriminate; intros _; unfold_handlers;
    intros [= <- <-]; repeat split.
Qed.

Lemma preference_changes_frame es st w :
  forallb isPreferenceChange es = true ->
  exists st' w',
    run es st w = inr (st', w')
    /\ recipe st' = recipe st /\ isPlaying st' = isPlaying st
    /\ isPaused st' = isPaused st
    /\ currentUtterance st' = currentUtterance st
    /\ queue w' = queue w /\ paused w' = paused w /\ calls w' = calls w
    /\ nextUid w' = nextUid w.
Proof.
  revert st w. induction es as [|e es IH]; intros st w Hes.
  - exists st, w. repeat split.
  - simpl in Hes. apply andb_true_iff in Hes as [He Hes].
    assert (Hstep : exists st1 w1, step e st w = inr (st1, w1)).
    { destruct e; try discriminate; unfold_handlers; eauto. }
    destruct Hstep as (st1 & w1 & Hstep).
    destruct (preference_change_frame _ _ _ _ _ He Hstep)
      as (H1 & H2 & H3 & H4 & H5 & H6 & H7 & H8).
    destruct (IH st1 w1 Hes) as (st' & w' & Hrun & I1 & I2 & I3 & I4 & I5 & I6 & I7 & I8).
    exists st', w'. simpl. rewrite Hstep.
    repeat split; try assumption; congruence.
Qed.

Lemma run_app es1 es2 st w st1 w1 :
  run es1 st w = inr (st1, w1) ->
  run (es1 ++ es2) st w = run es2 st1 w1.
Proof.
  revert st w. induction es1 as [|e es1 IH]; intros st w; simpl.
  - intros [= <- <-]. reflexivity.
  - destruct (step e st w) as [x|[st0 w0]]; [discriminate|]. apply IH.
Qed.

Lemma run_reachable es st w st' w' :
  reachable one st w -> run es st w = inr (st', w') -> reachable one st' w'.
Proof.
  revert st w. induction es as [|e es IH]; intros st w Hr; simpl.
  - intros [= <- <-]. exact Hr.
  - destruct (step e st w) as [x|[st1 w1]] eqn:E; [discriminate|].
    apply IH. exact (reachable_step _ e st w st1 w1 Hr E).
Qed.

Lemma session_reachable stored catalog es st w :
  session one stored catalog es = inr (st, w) -> reachable one st w.
Proof.
  unfold session.
  destruct (mount one (freshWorld stored catalog)) as [x|[st0 w0]] eqn:E;
    [discriminate|].
  apply run_reachable. exact (reachable_mount _ _ _ _ _ E).
Qed.

(** C6, amended: in state [Paused] with a current utterance and a
    text that is not blank, [startSpeech] calls [resume] and builds no
    utterance: the component is [Playing], the current utterance and
    the queue of the engine are the same objects as before, whatever
    preferences were set in between. *)
Theorem startSpeech_paused_resumes st w u prefs :
  playback st = Some Paused ->
  currentUtterance st = Some u ->
  forallb isWhiteSpace (recipe st) = false ->
  forallb isPreferenceChange prefs = true ->
  exists st' w',
    run (prefs ++ [ClickStart]) st w = inr (st', w')
    /\ playback st' = Some Playing
    /\ currentUtterance st' = Some u
    /\ queue w' = queue w
    /\ paused w' = false
    /\ calls w' = calls w ++ [Resume]
    /\ nextUid w' = nextUid w.
Proof.
  intros Hp Hu Hb Hprefs.
  destruct (preference_changes_frame prefs st w Hprefs)
    as (st1 & w1 & Hrun & H1 & H2 & H3 & H4 & H5 & H6 & H7 & H8).
  apply playback_flags in Hp. simpl in Hp.
  assert (Hpaused : isPaused st1 = true) by congruence.
  assert (Hcur : currentUtterance st1 = Some u) by congruence.
  rewrite (run_app _ [ClickStart] _ _ _ _ Hrun). simpl.
  unfold_handlers. rewrite truthy_trim, H1, Hb, Hpaused, Hcur. simpl.
  eexists _, _. split; [reflexivity|]. simpl.
  repeat split; congruence.
Qed.

(** *** Recipe library *)

(** C4: when the title or the content is empty or made of white space
    only, [saveRecipe] shows the error and does nothing else: the
    collection in the state and the stored entries are unchanged. *)
Theorem saveRecipe_blank st w now date :
  forallb isWhiteSpace (recipeTitle st) = true
  \/ forallb isWhiteSpace (recipe st) = true ->
  exists w',
    handle (saveRecipe now date) st w = inr (st, w')
    /\ w' = toasted toast_Error w
    /\ localStorage w' = localStorage w.
Proof.
  intros Hb. exists (toasted toast_Error w).
  unfold_handlers. rewrite !truthy_trim.
  destruct Hb as [-> | ->]; simpl; rewrite ?orb_true_r; repeat split.
Qed.

Lemma Number_toString_inj (a b : Z) :
  Number_toString a = Number_toString b -> a = b.
Proof.
  unfold Number_toString, lit. intros E.
  assert (Hinj : Inj (=) (=) N_of_ascii).
  { intros x y Hxy.
    rewrite <- (ascii_N_embedding x), <- (ascii_N_embedding y). congruence. }
  apply (inj (fmap N_of_ascii)) in E.
  apply (f_equal String.string_of_list_ascii) in E.
  rewrite !String.string_of_list_ascii_of_string in E.
  apply (inj pretty). exact E.
Qed.

(** C3, amended: when the title and the content are not blank,
    [saveRecipe] appends one entry to the collection, with the title
    and the content of the form, the decimal digits of [Date.now()] as
    its id and the ISO-8601 text of the date as its timestamp; it
    stores the whole collection and shows the success message. The
    ids of the collection stay distinct when no entry has the new id;
    two clock readings give the same id only when they are equal. *)
Theorem saveRecipe_appends st w now date :
  forallb isWhiteSpace (recipeTitle st) = false ->
  forallb isWhiteSpace (recipe st) = false ->
  exists st' w',
    handle (saveRecipe now date) st w = inr (st', w')
    /\ savedRecipes st' =
         savedRecipes st
         ++ [Recipe.mk (Number_toString now) (recipeTitle st) (recipe st)
               (Date_toISOString date)]
    /\ localStorage w' =
         <[lit "savedRecipes" := JSON_stringify (savedRecipes st')]>
           (localStorage w)
    /\ toasts w' = toasts w ++ [toast_Success]
    /\ (NoDup (Recipe.id <$> savedRecipes st) ->
        Forall (fun r => Recipe.id r <> Number_toString now) (savedRecipes st) ->
        NoDup (Recipe.id <$> savedRecipes st'))
    /\ (forall t, Number_toString t = Number_toString now -> t = now).
Proof.
  intros Ht Hc. unfold_handlers. rewrite !truthy_trim, Ht, Hc. simpl.
  eexists _, _. split; [reflexivity|]. simpl. repeat split.
  - intros Hnd Hids. rewrite fmap_app. simpl.
    apply NoDup_app. split; [exact Hnd|]. split; [|apply NoDup_singleton].
    intros i Hi Hin. apply list_elem_of_singleton in Hin. subst i.
    apply list_elem_of_fmap in Hi as (r & Hr & Hin).
    rewrite Forall_forall in Hids. apply (Hids r Hin). congruence.
  - intros t. apply Number_toString_inj.
Qed.

Lemma pad_length k n : length (pad k n) = k.
Proof.
  revert n. induction k as [|k IH]; intros n; simpl; [reflexivity|].
  rewrite length_app, IH. simpl. lia.
Qed.

(** The timestamp has the 24 characters of [YYYY-MM-DDTHH:mm:ss.sssZ]
    when the year has four digits, and 27 with an expanded year. *)
Lemma Date_toISOString_length t :
  length (Date_toISOString t) = 24 \/ length (Date_toISOString t) = 27.
Proof.
  unfold Date_toISOString.
  destruct (civil_from_days (t / 86400000)) as [[y m] d].
  destruct ((0 <=? y)%Z && (y <=? 9999)%Z); [left|right];
    [|destruct (y <? 0)%Z]; rewrite !length_app, !pad_length; reflexivity.
Qed.

(** *** Loading at mount *)

(** C2, amended: at mount an entry that is absent or empty counts as
    the empty collection, or as the default preferences, an entry that
    [JSON.parse] reads as a value of the declared type is taken as
    parsed, and the component mounts: the collection, the rate, the
    pitch and the volume are the loaded ones, the whole preferences
    are when the catalog is empty, and a loaded voice that is empty is
    seeded with the first voice of the catalog. An entry on which
    [JSON.parse] throws is not taken as empty: the mount effect throws
    that [SyntaxError]; and any other value that [JSON.parse] returns
    is not taken as empty either: it is used without a check, and is
    not followed here. *)
Theorem mount_loads stored catalog :
  match loaded stored (lit "savedRecipes") [],
        loaded stored (lit "ttsSettings") (ttsSettings (initialState one)) with
  | Some rs, Some tts =>
      exists st w,
        mount one (freshWorld stored catalog) = inr (st, w)
        /\ savedRecipes st = rs
        /\ TTSSettings.rate (ttsSettings st) = TTSSettings.rate tts
        /\ TTSSettings.pitch (ttsSettings st) = TTSSettings.pitch tts
        /\ TTSSettings.volume (ttsSettings st) = TTSSettings.volume tts
        /\ (catalog = [] -> ttsSettings st = tts)
        /\ (TTSSettings.voice tts = [] ->
            forall v0 rest, catalog = v0 :: rest ->
            TTSSettings.voice (ttsSettings st) = Voice.name v0)
        /\ availableVoices st = catalog
        /\ playback st = Some Idle
        /\ currentUtterance st = None
        /\ localStorage w !! lit "ttsSettings"
           = Some (JSON_stringify (ttsSettings st))
  | None, _ =>
      exists s,
        stored !! lit "savedRecipes" = Some s
        /\ truthy s = true
        /\ mount one (freshWorld stored catalog)
           = inl (refusal (A := list Recipe.t) s)
  | Some _, None =>
      exists s,
        stored !! lit "ttsSettings" = Some s
        /\ truthy s = true
        /\ mount one (freshWorld stored catalog)
           = inl (refusal (A := TTSSettings.t number) s)
  end.
Proof.
  unfold loaded. unfold_handlers.
  destruct (stored !! lit "savedRecipes") as [s1|];
    [destruct (truthy s1) eqn:?; [destruct (JSON_parse s1)|]|].
  all: cbn.
  all: try solve
    [eexists; split; [reflexivity|split; [eassumption|reflexivity]]].
  all: destruct (stored !! lit "ttsSettings") as [s2|];
    [destruct (truthy s2) eqn:?; [destruct (JSON_parse s2)|]|].
  all: cbn.
  all: try solve
    [eexists; split; [reflexivity|split; [eassumption|reflexivity]]].
  all: destruct catalog as [|v0 rest]; simpl; eexists _, _;
    (split; [reflexivity|]); simpl; rewrite ?lookup_insert_eq;
    repeat split; try discriminate; try (intros; congruence).
Qed.

(** *** Preferences *)

(** A preference change is stored at once. *)
Lemma preference_change_persists e st w :
  isPreferenceChange e = true ->
  exists st' w',
    step e st w = inr (st', w')
    /\ localStorage w' !! lit "ttsSettings"
       = Some (JSON_stringify (ttsSettings st'))
    /\ ttsSettings st' =
       match e with
       | SlideRate v => TTSSettings.with_rate v (ttsSettings st)
       | SlidePitch v => TTSSettings.with_pitch v (ttsSettings st)
       | SlideVolume v => TTSSettings.with_volume v (ttsSettings st)
       | SelectVoice v => TTSSettings.with_voice v (ttsSettings st)
       | _ => ttsSettings st
       end.
Proof.
  destruct e; try discriminate; intros _; unfold_handlers;
    eexists _, _; (split; [reflexivity|]); simpl;
    rewrite lookup_insert_eq; split; reflexivity.
Qed.

(** The handler registered at mount sees the preferences of the first
    render, whose voice is empty: a catalog that is not empty always
    sets the voice. *)
Lemma loadVoices_sets_voice st w v0 rest :
  reachable one st w ->
  exists st' w',
    step (VoicesChanged (v0 :: rest)) st w = inr (st', w')
    /\ ttsSettings st' = TTSSettings.with_voice (Voice.name v0) (ttsSettings st).
Proof.
  intros Hr. destruct (reachable_invariant _ _ Hr) as (_ & _ & _ & Hv).
  unfold_handlers. rewrite Hv. simpl. eexists _, _. split; reflexivity.
Qed.

(** What was stored is read back when the component mounts again: the
    rate, the pitch and the volume always, the voice when the catalog
    is empty. *)
Lemma reload_reads_back `{!JSONLaws (TTSSettings.t number)}
    stored catalog tts rs :
  stored !! lit "ttsSettings" = Some (JSON_stringify tts) ->
  loaded stored (lit "savedRecipes") [] = Some rs ->
  exists st w,
    mount one (freshWorld stored catalog) = inr (st, w)
    /\ TTSSettings.rate (ttsSettings st) = TTSSettings.rate tts
    /\ TTSSettings.pitch (ttsSettings st) = TTSSettings.pitch tts
    /\ TTSSettings.volume (ttsSettings st) = TTSSettings.volume tts
    /\ (catalog = [] -> ttsSettings st = tts).
Proof.
  intros Hs Hrs. unfold loaded in Hrs. unfold_handlers.
  destruct (stored !! lit "savedRecipes") as [s1|];
    [destruct (truthy s1); [destruct (JSON_parse s1); [|discriminate]|]|].
  all: cbn; rewrite Hs; cbn.
  all: rewrite JSON_stringify_truthy, JSON_parse_stringify; cbn.
  all: destruct catalog as [|v0 rest]; simpl; eexists _, _;
    (split; [reflexivity|]); repeat split; discriminate.
Qed.

(** *** More on the recipe library *)

Lemma state_eta st :
  mkState (recipe st) (recipeTitle st) (savedRecipes st) (isPlaying st)
    (isPaused st) (currentUtterance st) (availableVoices st) (showSettings st)
    (ttsSettings st) = st.
Proof. destruct st; reflexivity. Qed.

Lemma filter_keeps_elem id (rs : list Recipe.t) r :
  r ∈ List.filter (keeps id) rs <-> r ∈ rs /\ Recipe.id r <> id.
Proof.
  rewrite !list_elem_of_In, filter_In. unfold keeps.
  rewrite negb_true_iff, bool_decide_eq_false. reflexivity.
Qed.

Lemma filter_keeps_sublist id (rs : list Recipe.t) :
  sublist (List.filter (keeps id) rs) rs.
Proof.
  induction rs as [|r rs IH]; simpl; [constructor|].
  destruct (keeps id r); [apply sublist_skip|apply sublist_cons]; exact IH.
Qed.

Lemma filter_keeps_all id (rs : list Recipe.t) :
  Forall (fun r => Recipe.id r <> id) rs -> List.filter (keeps id) rs = rs.
Proof.
  induction 1 as [|r rs Hr _ IH]; simpl; [reflexivity|].
  unfold keeps at 1. rewrite bool_decide_eq_false_2 by exact Hr. simpl.
  rewrite IH. reflexivity.
Qed.

Lemma deleteRecipe_result st w id :
  handle (deleteRecipe id) st w =
  inr (mkState (recipe st) (recipeTitle st)
         (List.filter (keeps id) (savedRecipes st)) (isPlaying st)
         (isPaused st) (currentUtterance st) (availableVoices st)
         (showSettings st) (ttsSettings st),
       toasted toast_Deleted
         (mkWorld
            (<[lit "savedRecipes" :=
                 JSON_stringify (List.filter (keeps id) (savedRecipes st))]>
               (localStorage w))
            (queue w) (paused w) (calls w) (voices w) (onvoiceschanged w)
            (toasts w) (nextUid w))).
Proof. reflexivity. Qed.

Lemma filter_keeps_split id (rs1 rs2 : list Recipe.t) r :
  List.filter (keeps id) (rs1 ++ r :: rs2) =
  List.filter (keeps id) rs1
  ++ (if bool_decide (Recipe.id r = id) then [] else [r])
  ++ List.filter (keeps id) rs2.
Proof.
  rewrite List.filter_app. simpl. unfold keeps at 2.
  destruct (bool_decide (Recipe.id r = id)); reflexivity.
Qed.

(** X1: [deleteRecipe] removes every entry with the id and no other:
    the collection left is the old one without the entries of that
    id, each other entry kept where it was, as often as it was there;
    it is what is stored; the editor, the playback and the engine are
    not touched. *)
Theorem deleteRecipe_removes st w id :
  exists st' w',
    handle (deleteRecipe id) st w = inr (st', w')
    /\ savedRecipes st' = List.filter (keeps id) (savedRecipes st)
    /\ (forall rs1 r rs2, savedRecipes st = rs1 ++ r :: rs2 ->
        savedRecipes st' =
        List.filter (keeps id) rs1
        ++ (if bool_decide (Recipe.id r = id) then [] else [r])
        ++ List.filter (keeps id) rs2)
    /\ (Forall (fun r => Recipe.id r <> id) (savedRecipes st) ->
        savedRecipes st' = savedRecipes st)
    /\ (forall r, r ∈ savedRecipes st' <->
                  r ∈ savedRecipes st /\ Recipe.id r <> id)
    /\ sublist (savedRecipes st') (savedRecipes st)
    /\ localStorage w' =
         <[lit "savedRecipes" := JSON_stringify (savedRecipes st')]>
           (localStorage w)
    /\ recipe st' = recipe st /\ recipeTitle st' = recipeTitle st
    /\ playback st' = playback st
    /\ currentUtterance st' = currentUtterance st
    /\ queue w' = queue w /\ calls w' = calls w.
Proof.
  eexists _, _. split; [apply deleteRecipe_result|]. simpl.
  split; [reflexivity|].
  split; [intros rs1 r rs2 ->; apply filter_keeps_split|].
  split; [apply filter_keeps_all|].
  split; [intros r; apply filter_keeps_elem|].
  split; [apply filter_keeps_sublist|]. repeat split.
Qed.

(** X2: [deleteRecipe] with an id that no entry has is not an error:
    the state is unchanged, the collection is stored again as it is
    and the "Recipe Deleted" message is shown all the same. *)
Theorem deleteRecipe_absent st w id :
  id ∉ Recipe.id <$> savedRecipes st ->
  exists w',
    handle (deleteRecipe id) st w = inr (st, w')
    /\ localStorage w' =
         <[lit "savedRecipes" := JSON_stringify (savedRecipes st)]>
           (localStorage w)
    /\ toasts w' = toasts w ++ [toast_Deleted].
Proof.
  intros Hid. rewrite deleteRecipe_result.
  assert (Hall : List.filter (keeps id) (savedRecipes st) = savedRecipes st).
  { apply filter_keeps_all, Forall_forall. intros r Hr E. apply Hid.
    apply list_elem_of_fmap. exists r. split; [symmetry; exact E|exact Hr]. }
  rewrite Hall, state_eta. eexists. split; [reflexivity|]. split; reflexivity.
Qed.

Lemma saveRecipe_result st w now date :
  forallb isWhiteSpace (recipeTitle st) = false ->
  forallb isWhiteSpace (recipe st) = false ->
  handle (saveRecipe now date) st w =
  inr (mkState (recipe st) (recipeTitle st)
         (savedRecipes st
          ++ [Recipe.mk (Number_toString now) (recipeTitle st) (recipe st)
                (Date_toISOString date)])
         (isPlaying st) (isPaused st) (currentUtterance st)
         (availableVoices st) (showSettings st) (ttsSettings st),
       toasted toast_Success
         (mkWorld
            (<[lit "savedRecipes" :=
                 JSON_stringify
                   (savedRecipes st
                    ++ [Recipe.mk (Number_toString now) (recipeTitle st)
                          (recipe st) (Date_toISOString date)])]>
               (localStorage w))
            (queue w) (paused w) (calls w) (voices w) (onvoiceschanged w)
            (toasts w) (nextUid w))).
Proof.
  intros Ht Hc. unfold_handlers. rewrite !truthy_trim, Ht, Hc. reflexivity.
Qed.

(** X3: a save followed by the deletion of the id it gave leaves the
    entries that had another id: the collection is the one before the
    save when the id was new, and loses every older entry with that id
    otherwise. The stored collection is the one in the state. *)
Theorem save_then_delete st w now date :
  forallb isWhiteSpace (recipeTitle st) = false ->
  forallb isWhiteSpace (recipe st) = false ->
  exists st' w',
    run [ClickSave now date; ClickDelete (Number_toString now)] st w
      = inr (st', w')
    /\ savedRecipes st' =
         List.filter (keeps (Number_toString now)) (savedRecipes st)
    /\ (Forall (fun r => Recipe.id r <> Number_toString now) (savedRecipes st)
        -> savedRecipes st' = savedRecipes st)
    /\ localStorage w' !! lit "savedRecipes"
         = Some (JSON_stringify (savedRecipes st')).
Proof.
  intros Ht Hc. cbn [run step].
  rewrite (saveRecipe_result _ _ _ _ Ht Hc), deleteRecipe_result.
  eexists _, _. split; [reflexivity|]. cbn [savedRecipes localStorage toasted].
  assert (Hf : List.filter (keeps (Number_toString now))
            (savedRecipes st
             ++ [Recipe.mk (Number_toString now) (recipeTitle st) (recipe st)
                   (Date_toISOString date)])
          = List.filter (keeps (Number_toString now)) (savedRecipes st)).
  { rewrite List.filter_app. simpl. unfold keeps at 2. simpl.
    rewrite bool_decide_eq_true_2 by reflexivity. simpl. apply app_nil_r. }
  rewrite Hf. split; [reflexivity|]. split.
  - apply filter_keeps_all.
  - apply lookup_insert_eq.
Qed.

(** X4: [loadRecipe] copies the title and the content of the recipe
    into the editor and leaves the collection and what is stored as
    they are; a save that follows appends a second entry with that
    title and content when they are not blank, and is refused when one
    of them is. *)
Theorem load_then_save st w r now date :
  (exists st1 w1,
     handle (loadRecipe r) st w = inr (st1, w1)
     /\ recipeTitle st1 = Recipe.title r /\ recipe st1 = Recipe.content r
     /\ savedRecipes st1 = savedRecipes st
     /\ localStorage w1 = localStorage w)
  /\ exists st' w',
       run [ClickLoad r; ClickSave now date] st w = inr (st', w')
       /\ savedRecipes st' =
            if forallb isWhiteSpace (Recipe.title r)
               || forallb isWhiteSpace (Recipe.content r)
            then savedRecipes st
            else savedRecipes st
                 ++ [Recipe.mk (Number_toString now) (Recipe.title r)
                       (Recipe.content r) (Date_toISOString date)].
Proof.
  split.
  - unfold_handlers. eexists _, _. split; [reflexivity|]. repeat split.
  - cbn [run step]. unfold_handlers. rewrite !truthy_trim.
    destruct (forallb isWhiteSpace (Recipe.title r)),
      (forallb isWhiteSpace (Recipe.content r)); simpl;
      eexists _, _; split; reflexivity.
Qed.

(** *** More on playback *)

Lemma startSpeech_new_result st w :
  forallb isWhiteSpace (recipe st) = false ->
  isPaused st && bool_decide (is_Some (currentUtterance st)) = false ->
  let u :=
    Utterance.mk number (nextUid w) (recipe st)
      (TTSSettings.rate (ttsSettings st)) (TTSSettings.pitch (ttsSettings st))
      (TTSSettings.volume (ttsSettings st))
      (List.find
         (fun voice =>
            bool_decide (Voice.name voice = TTSSettings.voice (ttsSettings st)))
         (availableVoices st)) in
  handle startSpeech st w =
  inr (mkState (recipe st) (recipeTitle st) (savedRecipes st) (isPlaying st)
         (isPaused st) (Some u) (availableVoices st) (showSettings st)
         (ttsSettings st),
       mkWorld (localStorage w) [u] (paused w) (calls w ++ [Cancel; Speak u])
         (voices w) (onvoiceschanged w) (toasts w) (S (nextUid w))).
Proof.
  intros Hb Hp. unfold_handlers. rewrite truthy_trim, Hb, Hp. simpl.
  rewrite <- app_assoc. reflexivity.
Qed.

(** X7: when [startSpeech] builds an utterance, it carries the text of
    the editor and the rate, pitch and volume of the preferences; its
    voice is a voice of the list with the preferred name, and no voice
    (the engine's default) exactly when the list has no voice of that
    name, which is not an error. The flags are left to the [onstart]
    callback. *)
Theorem startSpeech_builds_utterance st w :
  forallb isWhiteSpace (recipe st) = false ->
  isPaused st && bool_decide (is_Some (currentUtterance st)) = false ->
  exists u st' w',
    handle startSpeech st w = inr (st', w')
    /\ currentUtterance st' = Some u
    /\ Utterance.text u = recipe st
    /\ Utterance.rate u = TTSSettings.rate (ttsSettings st)
    /\ Utterance.pitch u = TTSSettings.pitch (ttsSettings st)
    /\ Utterance.volume u = TTSSettings.volume (ttsSettings st)
    /\ (forall v, Utterance.voice u = Some v ->
          v ∈ availableVoices st
          /\ Voice.name v = TTSSettings.voice (ttsSettings st))
    /\ (Utterance.voice u = None <->
          TTSSettings.voice (ttsSettings st)
            ∉ Voice.name <$> availableVoices st)
    /\ isPlaying st' = isPlaying st /\ isPaused st' = isPaused st
    /\ toasts w' = toasts w.
Proof.
  intros Hb Hp. eexists _, _, _.
  split; [apply (startSpeech_new_result _ _ Hb Hp)|]. simpl.
  repeat split.
  - apply find_some in H. apply list_elem_of_In, H.
  - apply find_some in H. destruct H as [_ H].
    apply bool_decide_eq_true in H. exact H.
  - intros Hnone Hin. apply list_elem_of_fmap in Hin as (v & Hv & Hin).
    apply list_elem_of_In in Hin.
    apply (find_none _ _ Hnone) in Hin.
    apply bool_decide_eq_false in Hin. congruence.
  - intros Hnot.
    destruct (find _ (availableVoices st)) as [v|] eqn:E; [|reflexivity].
    apply find_some in E as [Hin Hname]. apply bool_decide_eq_true in Hname.
    exfalso. apply Hnot. apply list_elem_of_fmap. exists v.
    split; [symmetry; exact Hname|apply list_elem_of_In; exact Hin].
Qed.

(** X17: a preference set just before the start is the one the
    utterance carries: a rate from the slider is its rate, and a voice
    picked among the listed ones is its voice. *)
Theorem preference_then_start st w :
  forallb isWhiteSpace (recipe st) = false ->
  isPaused st && bool_decide (is_Some (currentUtterance st)) = false ->
  (forall r, exists u st' w',
     run [SlideRate r; ClickStart] st w = inr (st', w')
     /\ currentUtterance st' = Some u /\ Utterance.rate u = r)
  /\ (forall name, name ∈ Voice.name <$> availableVoices st ->
      exists u v st' w',
        run [SelectVoice name; ClickStart] st w = inr (st', w')
        /\ currentUtterance st' = Some u
        /\ Utterance.voice u = Some v
        /\ Voice.name v = name /\ v ∈ availableVoices st).
Proof.
  intros Hb Hp. split.
  - intros r. cbn [run step]. unfold_handlers. rewrite truthy_trim, Hb, Hp.
    simpl. eexists _, _, _. split; [reflexivity|]. split; reflexivity.
  - intros name Hin. cbn [run step]. unfold_handlers.
    rewrite truthy_trim, Hb, Hp. simpl.
    destruct (find (fun voice => bool_decide (Voice.name voice = name))
                (availableVoices st)) as [v|] eqn:E.
    + apply find_some in E as [Hv Hname]. apply bool_decide_eq_true in Hname.
      eexists _, v, _, _. split; [reflexivity|]. simpl.
      repeat split; [exact Hname|apply list_elem_of_In; exact Hv].
    + exfalso. apply list_elem_of_fmap in Hin as (v & Hv & Hin).
      apply list_elem_of_In in Hin. apply (find_none _ _ E) in Hin.
      apply bool_decide_eq_false in Hin. congruence.
Qed.

(** X8: a whole playback brings the component back where it was: from
    [Idle] with no current utterance, the start, the engine's [start]
    event, the end of the utterance and the [end] event, or the
    [error] event, leave the state of the component as before the
    start; the error adds the "Speech Error" message. *)
Theorem playback_cycle st w :
  forallb isWhiteSpace (recipe st) = false ->
  playback st = Some Idle ->
  currentUtterance st = None ->
  (exists u w',
     run [ClickStart; OnStart; Dequeue; OnEnd] st w = inr (st, w')
     /\ calls w' = calls w ++ [Cancel; Speak u]
     /\ queue w' = [] /\ toasts w' = toasts w)
  /\ (exists u w',
     run [ClickStart; OnStart; Dequeue; OnError] st w = inr (st, w')
     /\ calls w' = calls w ++ [Cancel; Speak u]
     /\ queue w' = [] /\ toasts w' = toasts w ++ [toast_SpeechError]).
Proof.
  intros Hb Hp Hu. apply playback_flags in Hp. simpl in Hp.
  assert (Hplaying : isPlaying st = false) by congruence.
  assert (Hpaused : isPaused st = false) by congruence.
  assert (Hst : mkState (recipe st) (recipeTitle st) (savedRecipes st) false
                  false None (availableVoices st) (showSettings st)
                  (ttsSettings st) = st).
  { destruct st; simpl in *; subst; reflexivity. }
  split; cbn [run step]; unfold_handlers; rewrite truthy_trim, Hb, Hpaused;
    simpl; rewrite Hst; eexists _, _; (split; [reflexivity|]); simpl;
    rewrite <- app_assoc; repeat split.
Qed.

(** X9: a pause followed by a start resumes: from [Playing] with a
    current utterance, the two clicks leave the state of the component
    as it was, the engine not paused, its queue untouched, and build
    no utterance. *)
Theorem pause_then_resume st w u :
  forallb isWhiteSpace (recipe st) = false ->
  playback st = Some Playing ->
  currentUtterance st = Some u ->
  exists w',
    run [ClickPause; ClickStart] st w = inr (st, w')
    /\ calls w' = calls w ++ [Pause; Resume]
    /\ queue w' = queue w /\ paused w' = false /\ nextUid w' = nextUid w.
Proof.
  intros Hb Hp Hu. apply playback_flags in Hp. simpl in Hp.
  assert (Hplaying : isPlaying st = true) by congruence.
  assert (Hpaused : isPaused st = false) by congruence.
  assert (Hst : mkState (recipe st) (recipeTitle st) (savedRecipes st) true
                  false (Some u) (availableVoices st)
                  (showSettings st) (ttsSettings st) = st).
  { destruct st; simpl in *; subst; reflexivity. }
  cbn [run step]. unfold_handlers. rewrite Hplaying. simpl.
  rewrite truthy_trim, Hb, Hu. simpl. rewrite Hst.
  eexists. split; [reflexivity|]. simpl. rewrite <- app_assoc. repeat split.
Qed.

(** X11: [stopSpeech] does not call [resume]: after a pause, a stop
    and a new start, the engine has been cancelled twice and never
    resumed, so the new utterance waits in an engine that is still
    paused, while the component shows [Idle]. *)
Theorem stop_leaves_engine_paused st w :
  forallb isWhiteSpace (recipe st) = false ->
  isPlaying st = true ->
  exists u st' w',
    run [ClickPause; ClickStop; ClickStart] st w = inr (st', w')
    /\ calls w' = calls w ++ [Pause; Cancel; Cancel; Speak u]
    /\ queue w' = [u]
    /\ paused w' = true
    /\ playback st' = Some Idle.
Proof.
  intros Hb Hp. cbn [run step]. unfold_handlers. rewrite Hp. simpl.
  rewrite truthy_trim, Hb. simpl. eexists _, _, _.
  split; [reflexivity|]. simpl. rewrite <- !app_assoc. repeat split.
Qed.

(** *** More invariants of the mounted component *)

Lemma keys_differ : lit "savedRecipes" <> lit "ttsSettings".
Proof. intros E. vm_compute in E. discriminate E. Qed.

(** The cases of a step that ends in [st'] and [w']; [Hv] says which
    [loadVoices] is registered. *)
Ltac step_cases e Hv :=
  destruct e; unfold_handlers; rewrite ?truthy_trim;
  repeat match goal with
  | |- context [forallb isWhiteSpace ?s] => destruct (forallb isWhiteSpace s)
  | |- context [isPaused ?s && bool_decide ?P] =>
      destruct (isPaused s && bool_decide P) eqn:?
  | |- context [if isPlaying ?s then _ else _] => destruct (isPlaying s) eqn:?
  end;
  try rewrite Hv;
  try match goal with
  | |- context [match ?l with [] => _ | _ :: _ => _ end] => destruct l
  end;
  simpl; intros [= <- <-]; simpl.

(** The cases of a mount that ends in [st] and [w]. *)
Ltac mount_cases stored catalog :=
  let s1 := fresh "s" in
  let s2 := fresh "s" in
  unfold_handlers;
  destruct (stored !! lit "savedRecipes") as [s1|] eqn:?;
    [destruct (truthy s1) eqn:?; [destruct (JSON_parse s1) eqn:?|]|];
  cbn; try discriminate;
  (destruct (stored !! lit "ttsSettings") as [s2|] eqn:?;
    [destruct (truthy s2) eqn:?; [destruct (JSON_parse s2) eqn:?|]|]);
  cbn; try discriminate;
  destruct catalog; simpl; intros [= <- <-]; simpl.

(** X6: the preferences are written through: in every state of the
    mounted component the stored [ttsSettings] entry is the
    serialisation of the preferences in the state. *)
Theorem preferences_stored st w :
  reachable one st w ->
  localStorage w !! lit "ttsSettings" = Some (JSON_stringify (ttsSettings st)).
Proof.
  induction 1 as [stored catalog st w Hm | e st w st' w' Hr IH Hs].
  - revert Hm. mount_cases stored catalog; apply lookup_insert_eq.
  - destruct (reachable_invariant _ _ Hr) as (_ & _ & _ & Hv).
    revert Hs. step_cases e Hv;
      rewrite ?lookup_insert_eq, ?(lookup_insert_ne _ _ _ _ keys_differ);
      solve [reflexivity | exact IH].
Qed.

(** X13: the list of voices in the state is the catalog of the
    platform, in every state of the mounted component. *)
Theorem availableVoices_is_catalog st w :
  reachable one st w -> availableVoices st = voices w.
Proof.
  induction 1 as [stored catalog st w Hm | e st w st' w' Hr IH Hs].
  - revert Hm. mount_cases stored catalog; reflexivity.
  - destruct (reachable_invariant _ _ Hr) as (_ & _ & _ & Hv).
    revert Hs. step_cases e Hv; solve [reflexivity | exact IH].
Qed.

(** X10: when the component shows [Paused], the engine is paused, in
    every state of the mounted component. *)
Theorem paused_flag_means_engine_paused st w :
  reachable one st w -> isPaused st = true -> paused w = true.
Proof.
  induction 1 as [stored catalog st w Hm | e st w st' w' Hr IH Hs].
  - revert Hm. mount_cases stored catalog; discriminate.
  - destruct (reachable_invariant _ _ Hr) as (_ & _ & _ & Hv).
    revert Hs. step_cases e Hv;
      solve [exact IH | discriminate | reflexivity].
Qed.

Lemma speak_follows_cancel_snoc (cs : list (Call number)) c :
  (forall u, c <> Speak u) ->
  speak_follows_cancel cs -> speak_follows_cancel (cs ++ [c]).
Proof.
  intros Hc H i u Hi. apply lookup_app_Some in Hi as [Hi|[Hlen Hi]].
  - destruct (H i u Hi) as (j & -> & Hj). exists j. split; [reflexivity|].
    apply lookup_app_l_Some. exact Hj.
  - destruct (i - length cs) as [|k]; simpl in Hi; [|discriminate].
    injection Hi as Hi. exfalso. exact (Hc u Hi).
Qed.

Lemma speak_follows_cancel_start (cs : list (Call number)) u0 :
  speak_follows_cancel cs -> speak_follows_cancel (cs ++ [Cancel; Speak u0]).
Proof.
  intros H i u Hi. apply lookup_app_Some in Hi as [Hi|[Hlen Hi]].
  - destruct (H i u Hi) as (j & -> & Hj). exists j. split; [reflexivity|].
    apply lookup_app_l_Some. exact Hj.
  - destruct (i - length cs) as [|[|k]] eqn:E; simpl in Hi; try discriminate.
    exists (length cs). split; [lia|].
    rewrite lookup_app_r by lia. rewrite Nat.sub_diag. reflexivity.
Qed.

(** X12: the component never calls [speak] without a [cancel] just
    before it: in the log of the engine calls of a mounted component
    every [speak] directly follows a [cancel]. *)
Theorem cancel_before_every_speak st w :
  reachable one st w -> speak_follows_cancel (calls w).
Proof.
  induction 1 as [stored catalog st w Hm | e st w st' w' Hr IH Hs].
  - revert Hm. mount_cases stored catalog; intros i u Hi; discriminate.
  - destruct (reachable_invariant _ _ Hr) as (_ & _ & _ & Hv).
    revert Hs. step_cases e Hv; try exact IH.
    + apply speak_follows_cancel_snoc; [discriminate|exact IH].
    + rewrite <- app_assoc. apply speak_follows_cancel_start. exact IH.
    + apply speak_follows_cancel_snoc; [discriminate|exact IH].
    + apply speak_follows_cancel_snoc; [discriminate|exact IH].
Qed.

Lemma toast_Error_new (t : Toast.t) (ts : list Toast.t) :
  Toast.title t <> lit "Error" ->
  toast_Error ∉ ts -> toast_Error ∉ ts ++ [t].
Proof.
  intros Ht Hts Hin. apply elem_of_app in Hin as [Hin|Hin]; [auto|].
  apply list_elem_of_singleton in Hin. apply Ht. rewrite <- Hin. reflexivity.
Qed.

(** X16: through the form the refusal of [saveRecipe] is never seen:
    the Save button is disabled exactly when the handler would refuse,
    so no state reached by the form's own events shows the "Please
    enter both a title and recipe content" error. *)
Theorem form_never_shows_save_error st w :
  reachable_by_form one st w -> toast_Error ∉ toasts w.
Proof.
  induction 1 as [stored catalog st w Hm | e st w st' w' Hr IH Ho Hs].
  - revert Hm. mount_cases stored catalog; apply not_elem_of_nil.
  - assert (Hreach : reachable one st w).
    { clear -Hr. induction Hr as [? ? ? ? Hm|? ? ? ? ? _ IH' _ Hs'].
      - exact (reachable_mount _ _ _ _ _ Hm).
      - exact (reachable_step _ _ _ _ _ _ IH' Hs'). }
    destruct (reachable_invariant _ _ Hreach) as (_ & _ & _ & Hv).
    revert Hs. destruct e; try (unfold offered, saveDisabled in Ho);
      unfold_handlers; rewrite ?Ho; rewrite ?truthy_trim;
      repeat match goal with
      | |- context [forallb isWhiteSpace ?s] =>
          destruct (forallb isWhiteSpace s)
      | |- context [isPaused ?s && bool_decide ?P] =>
          destruct (isPaused s && bool_decide P) eqn:?
      | |- context [if isPlaying ?s then _ else _] =>
          destruct (isPlaying s) eqn:?
      end;
      try rewrite Hv;
      try match goal with
      | |- context [match ?l with [] => _ | _ :: _ => _ end] => destruct l
      end;
      simpl; intros [= <- <-]; simpl; try exact IH;
      apply toast_Error_new; try exact IH;
      intros E; vm_compute in E; discriminate E.
Qed.

Lemma keys_differ' : lit "ttsSettings" <> lit "savedRecipes".
Proof. intros E. apply keys_differ. symmetry. exact E. Qed.

(** X5: what a reload would read as the collection is the collection
    in the state: in every state of the mounted component the stored
    [savedRecipes] entry, read as the mount effect reads it, gives the
    saved recipes of the state. *)
Theorem saved_recipes_survive_reload `{!JSONLaws (list Recipe.t)} st w :
  reachable one st w ->
  loaded (localStorage w) (lit "savedRecipes") [] = Some (savedRecipes st).
Proof.
  induction 1 as [stored catalog st w Hm | e st w st' w' Hr IH Hs].
  - revert Hm. mount_cases stored catalog; unfold loaded;
      rewrite ?(lookup_insert_ne _ _ _ _ keys_differ');
      repeat match goal with
      | H : _ = _ |- _ => rewrite H
      end; reflexivity.
  - destruct (reachable_invariant _ _ Hr) as (_ & _ & _ & Hv).
    revert Hs. unfold loaded in *. step_cases e Hv;
      rewrite ?lookup_insert_eq, ?(lookup_insert_ne _ _ _ _ keys_differ'),
        ?JSON_stringify_truthy, ?JSON_parse_stringify;
      solve [reflexivity | exact IH].
Qed.

(** X15: mounting again on what a mount left, with the same catalog,
    gives the same state and stores nothing new: a reload without any
    event in between changes nothing. *)
Theorem mount_again `{!JSONLaws (TTSSettings.t number)} stored catalog st w :
  mount one (freshWorld stored catalog) = inr (st, w) ->
  mount one (freshWorld (localStorage w) catalog) = inr (st, w).
Proof.
  mount_cases stored catalog; unfold_handlers;
    rewrite ?(lookup_insert_ne _ _ _ _ keys_differ'), ?lookup_insert_eq;
    repeat match goal with
    | H : stored !! _ = _ |- _ => rewrite H
    | H : truthy _ = _ |- _ => rewrite H
    | H : JSON_parse _ = _ |- _ => rewrite H
    end; cbn;
    rewrite ?(lookup_insert_ne _ _ _ _ keys_differ'), ?lookup_insert_eq;
    rewrite ?JSON_stringify_truthy, ?JSON_parse_stringify; cbn;
    rewrite ?insert_insert_eq; reflexivity.
Qed.

Lemma step_keeps_filledIn e st w st' w' :
  Forall filledIn (savedRecipes st) ->
  step e st w = inr (st', w') ->
  Forall filledIn (savedRecipes st').
Proof.
  intros Hall. destruct e; unfold_handlers; rewrite ?truthy_trim.
  all: repeat match goal with
       | |- context [forallb isWhiteSpace ?s] =>
           destruct (forallb isWhiteSpace s) eqn:?
       | |- context [isPaused ?s && bool_decide ?P] =>
           destruct (isPaused s && bool_decide P)
       | |- context [if isPlaying ?s then _ else _] => destruct (isPlaying s)
       | |- context [match onvoiceschanged ?w with _ => _ end] =>
           destruct (onvoiceschanged w) as [c|]
       end.
  all: try match goal with
       | |- context [match ?l with [] => _ | _ :: _ => _ end] => destruct l
       end.
  all: try match goal with
       | |- context [if negb (truthy ?x) then _ else _] => destruct (truthy x)
       end.
  all: simpl; intros [= <- <-]; simpl; try exact Hall.
  - apply Forall_app. split; [exact Hall|].
    constructor; [split; assumption|constructor].
  - apply Forall_forall. intros r Hr. apply list_elem_of_In in Hr.
    apply filter_In in Hr as [Hr _]. rewrite Forall_forall in Hall.
    apply Hall, list_elem_of_In, Hr.
Qed.

(** X18: the form never stores a recipe with a blank title or a blank
    content: when every saved recipe has both filled in, so has every
    saved recipe after any run of events. *)
Theorem saved_recipes_stay_filled_in es st w st' w' :
  Forall filledIn (savedRecipes st) ->
  run es st w = inr (st', w') ->
  Forall filledIn (savedRecipes st').
Proof.
  revert st w. induction es as [|e es IH]; intros st w Hall; simpl.
  - intros [= <- <-]. exact Hall.
  - destruct (step e st w) as [x|[st1 w1]] eqn:E; [discriminate|].
    apply IH. exact (step_keeps_filledIn _ _ _ _ _ Hall E).
Qed.

Lemma run_by_form es st w st' w' :
  reachable_by_form one st w ->
  offered_run es st w ->
  run es st w = inr (st', w') ->
  reachable_by_form one st' w'.
Proof.
  revert st w. induction es as [|e es IH]; intros st w Hr Ho; simpl.
  - intros [= <- <-]. exact Hr.
  - simpl in Ho. destruct Ho as [Ho Hrest].
    destruct (step e st w) as [x|[st1 w1]] eqn:E; [contradiction|].
    apply IH; [|exact Hrest].
    exact (by_form_step _ e st w st1 w1 Hr Ho E).
Qed.

Lemma session_by_form stored catalog es st w :
  form_session one stored catalog es ->
  session one stored catalog es = inr (st, w) ->
  reachable_by_form one st w.
Proof.
  unfold form_session, session.
  destruct (mount one (freshWorld stored catalog)) as [x|[st0 w0]] eqn:E;
    [contradiction|].
  intros Ho. apply run_by_form; [|exact Ho].
  exact (by_form_mount _ _ _ _ _ E).
Qed.

End Properties.

(** ** The reference [JSON] satisfies the laws *)

Module RefJSONLaws.
Import RefJSON.

Section Laws.

(** Division and remainder by a constant, for [lia]. *)
Ltac Zify.zify_post_hook ::= Z.to_euclidean_division_equations.

Lemma hexValue_hexDigit (d : N) :
  (d < 16)%N -> hexValue (hexDigit d) = Some d.
Proof.
  intros H.
  assert (Hd : (d = 0 \/ d = 1 \/ d = 2 \/ d = 3 \/ d = 4 \/ d = 5 \/ d = 6
    \/ d = 7 \/ d = 8 \/ d = 9 \/ d = 10 \/ d = 11 \/ d = 12 \/ d = 13
    \/ d = 14 \/ d = 15)%N) by lia.
  repeat destruct Hd as [->|Hd]; try reflexivity. subst d. reflexivity.
Qed.

Lemma parseChars_unicodeEscape (c : N) (rest : jsstring) :
  (c < 65536)%N ->
  parseChars (unicodeEscape c ++ rest) = consUnit c (parseChars rest).
Proof.
  intros Hc. unfold unicodeEscape. cbn [app parseChars].
  change (92 =? 34)%N with false. change (92 =? 92)%N with true.
  change (117 =? 117)%N with true. cbn iota.
  rewrite !hexValue_hexDigit by lia.
  f_equal. lia.
Qed.

Lemma parseChars_literal (c : N) (rest : jsstring) :
  c <> 34%N -> c <> 92%N -> (32 <= c)%N ->
  parseChars (c :: rest) = consUnit c (parseChars rest).
Proof.
  intros H1 H2 H3. cbn [parseChars].
  apply N.eqb_neq in H1, H2. rewrite H1, H2.
  assert (H4 : (c <? 32)%N = false) by (apply N.ltb_ge; exact H3).
  rewrite H4. reflexivity.
Qed.

Lemma parseChars_quoteUnit (c : N) (rest : jsstring) :
  parseChars (quoteUnit c ++ rest) = consUnit c (parseChars rest).
Proof.
  unfold quoteUnit.
  repeat match goal with
  | |- context [(c =? ?k)%N] =>
      destruct (N.eqb_spec c k); [subst c; reflexivity|]
  end.
  destruct ((c <? 32)%N || isLeadingSurrogate c || isTrailingSurrogate c)
    eqn:E.
  - apply parseChars_unicodeEscape.
    unfold isLeadingSurrogate, isTrailingSurrogate in E. lia.
  - apply parseChars_literal; try assumption.
    apply orb_false_iff in E as [E _]. apply orb_false_iff in E as [E _].
    apply N.ltb_ge in E. exact E.
Qed.

Lemma quoteChars_cons (c d : N) (s : jsstring) :
  quoteChars (c :: d :: s) =
  if isLeadingSurrogate c && isTrailingSurrogate d
  then c :: d :: quoteChars s
  else quoteUnit c ++ quoteChars (d :: s).
Proof. reflexivity. Qed.

Lemma parseChars_quoteChars (s rest : jsstring) :
  parseChars (quoteChars s ++ 34%N :: rest) = Some (s, rest).
Proof.
  remember (length s) as n eqn:Hn.
  revert s Hn. induction (lt_wf n) as [n _ IH]. intros s Hn.
  destruct s as [|c [|d s']].
  - reflexivity.
  - cbn [quoteChars]. rewrite parseChars_quoteUnit. reflexivity.
  - rewrite quoteChars_cons.
    destruct (isLeadingSurrogate c && isTrailingSurrogate d) eqn:E.
    + apply andb_true_iff in E as [Ec Ed].
      unfold isLeadingSurrogate in Ec. unfold isTrailingSurrogate in Ed.
      cbn [app]. rewrite !parseChars_literal by lia.
      rewrite (IH (length s') ltac:(subst n; simpl; lia) s' eq_refl).
      reflexivity.
    + rewrite <- app_assoc, parseChars_quoteUnit.
      rewrite (IH (length (d :: s')) ltac:(subst n; simpl; lia) (d :: s') eq_refl).
      reflexivity.
Qed.

Lemma expect_app (p s : jsstring) : expect p (p ++ s) = Some s.
Proof.
  unfold expect. rewrite take_app_length, drop_app_length.
  rewrite bool_decide_eq_true_2; reflexivity.
Qed.

Lemma parseString_quote (s rest : jsstring) :
  parseString (quote s ++ rest) = Some (s, rest).
Proof.
  unfold parseString, quote. rewrite <- !app_assoc, expect_app. cbn [mbind option_bind].
  apply parseChars_quoteChars.
Qed.

(** The decimal digits of a positive number. *)
Lemma lit_pretty_N_go_app (x : N) (s : string) :
  lit (pretty_N_go x s) = lit (pretty_N_go x "") ++ lit s.
Proof.
  revert s. induction (N.lt_wf_0 x) as [x _ IH]. intros s.
  destruct (N.eq_dec x 0) as [->|Hx]; [reflexivity|].
  rewrite !(pretty_N_go_step x) by lia.
  rewrite (IH (x / 10)%N) by lia.
  rewrite (IH (x / 10)%N ltac:(lia) (String _ "")).
  rewrite <- app_assoc. reflexivity.
Qed.

Lemma N_of_pretty_N_char (d : N) :
  (d < 10)%N -> N_of_ascii (pretty_N_char d) = (48 + d)%N.
Proof.
  intros H.
  assert (Hd : (d = 0 \/ d = 1 \/ d = 2 \/ d = 3 \/ d = 4 \/ d = 5 \/ d = 6
    \/ d = 7 \/ d = 8 \/ d = 9)%N) by lia.
  repeat destruct Hd as [->|Hd]; try reflexivity. subst d. reflexivity.
Qed.

Lemma digits_step (x : N) :
  (0 < x)%N ->
  lit (pretty_N_go x "") =
  lit (pretty_N_go (x / 10) "") ++ [(48 + x mod 10)%N].
Proof.
  intros Hx. rewrite pretty_N_go_step by exact Hx.
  rewrite lit_pretty_N_go_app. f_equal.
  change (lit (String (pretty_N_char (x mod 10)) ""))
    with [N_of_ascii (pretty_N_char (x mod 10))].
  rewrite N_of_pretty_N_char by lia. reflexivity.
Qed.

Lemma digits_isDigit (x : N) :
  Forall (fun c => isDigit c = true) (lit (pretty_N_go x "")).
Proof.
  induction (N.lt_wf_0 x) as [x _ IH].
  destruct (N.eq_dec x 0) as [->|Hx]; [constructor|].
  rewrite digits_step by lia. apply Forall_app. split.
  - apply IH. lia.
  - constructor; [|constructor]. unfold isDigit. lia.
Qed.

Lemma digits_value (x : N) : digitsValue (lit (pretty_N_go x "")) = x.
Proof.
  induction (N.lt_wf_0 x) as [x _ IH].
  destruct (N.eq_dec x 0) as [->|Hx]; [reflexivity|].
  rewrite digits_step by lia. unfold digitsValue in *.
  rewrite fold_left_app, IH by lia. simpl. lia.
Qed.

Lemma digits_head (x : N) :
  (0 < x)%N ->
  exists d ds, lit (pretty_N_go x "") = d :: ds /\ d <> 48%N.
Proof.
  induction (N.lt_wf_0 x) as [x _ IH]. intros Hx.
  rewrite digits_step by exact Hx.
  destruct (N.eq_dec (x / 10) 0) as [E|E].
  - rewrite E. exists (48 + x mod 10)%N, []. split; [reflexivity|]. lia.
  - destruct (IH (x / 10)%N) as (d & ds & Hd & Hne); [lia|lia|].
    rewrite Hd. exists d, (ds ++ [(48 + x mod 10)%N]). split; [reflexivity|].
    exact Hne.
Qed.

Lemma spanDigits_app (ds rest : jsstring) :
  Forall (fun c => isDigit c = true) ds ->
  match rest with c :: _ => isDigit c = false | [] => True end ->
  spanDigits (ds ++ rest) = (ds, rest).
Proof.
  intros Hds Hrest. induction Hds as [|c ds Hc _ IH]; simpl.
  - destruct rest as [|c rest']; [reflexivity|]. simpl. rewrite Hrest.
    reflexivity.
  - rewrite Hc, IH. reflexivity.
Qed.

(** The integer part, as [parseNumber] reads it. *)
Lemma parseNumber_integer (q : N) (rest : jsstring) :
  match rest with c :: _ => isDigit c = false | [] => True end ->
  exists d0 ds,
    spanDigits (lit (pretty q) ++ rest) = (d0 :: ds, rest)
    /\ (d0 =? 48)%N && negb (bool_decide (ds = [])) = false
    /\ digitsValue (d0 :: ds) = q.
Proof.
  intros Hrest. unfold pretty, pretty_N.
  destruct (decide (q = 0%N)) as [->|Hq].
  - exists 48%N, []. repeat split.
    change (lit "0") with [48%N]. simpl.
    destruct rest as [|c rest']; [reflexivity|]. simpl. rewrite Hrest.
    reflexivity.
  - destruct (digits_head q) as (d & ds & Hd & Hne); [lia|].
    exists d, ds. rewrite <- Hd. split; [|split].
    + apply spanDigits_app; [apply digits_isDigit|exact Hrest].
    + apply N.eqb_neq in Hne. rewrite Hne. reflexivity.
    + apply digits_value.
Qed.

Lemma parseNumber_printNumber (n : N) (rest : jsstring) :
  parseNumber (printNumber n ++ 44%N :: rest) = Some (n, 44%N :: rest).
Proof.
  unfold printNumber, parseNumber. rewrite <- app_assoc.
  destruct (N.eqb_spec (n mod 10) 0) as [E|E].
  - destruct (parseNumber_integer (n / 10) ([] ++ 44%N :: rest))
      as (d0 & ds & -> & -> & ->); [reflexivity|].
    simpl. destruct rest; do 2 f_equal; lia.
  - destruct (parseNumber_integer (n / 10) ([46; 48 + n mod 10]%N ++ 44%N :: rest))
      as (d0 & ds & -> & -> & ->); [reflexivity|].
    cbn [app]. change (46 =? 46)%N with true. cbn iota.
    assert (H1 : ((49 <=? 48 + n mod 10) && (48 + n mod 10 <=? 57))%N = true)
      by lia.
    rewrite H1. simpl. do 2 f_equal. lia.
Qed.

Lemma parseNumber_printNumber_comma (n : N) (rest : jsstring) :
  parseNumber (printNumber n ++ lit "," ++ rest) = Some (n, lit "," ++ rest).
Proof. exact (parseNumber_printNumber n rest). Qed.

Lemma expect_app2 (p1 p2 s : jsstring) :
  expect (p1 ++ p2) (p1 ++ p2 ++ s) = Some s.
Proof. rewrite app_assoc. apply expect_app. Qed.

Lemma parseRecipe_printRecipe (r : Recipe.t) (rest : jsstring) :
  parseRecipe (printRecipe r ++ rest) = Some (r, rest).
Proof.
  unfold parseRecipe, printRecipe. rewrite <- !app_assoc.
  rewrite expect_app2. cbn [mbind option_bind].
  rewrite parseString_quote. cbn [mbind option_bind].
  rewrite expect_app2. cbn [mbind option_bind].
  rewrite parseString_quote. cbn [mbind option_bind].
  rewrite expect_app2. cbn [mbind option_bind].
  rewrite parseString_quote. cbn [mbind option_bind].
  rewrite expect_app2. cbn [mbind option_bind].
  rewrite parseString_quote. cbn [mbind option_bind].
  rewrite expect_app. cbn [mbind option_bind].
  destruct r; reflexivity.
Qed.

Lemma parseItems_printItems (rs : list Recipe.t) (rest : jsstring) (fuel : nat) :
  length rs < fuel ->
  parseItems fuel (printItems rs ++ rest) = Some (rs, rest).
Proof.
  revert fuel. induction rs as [|r rs IH]; intros [|fuel] Hf; simpl in Hf;
    try lia.
  - reflexivity.
  - cbn [printItems]. rewrite <- !app_assoc.
    change (lit "," ++ printRecipe r ++ printItems rs ++ rest)
      with (44%N :: (printRecipe r ++ printItems rs ++ rest)).
    cbn [parseItems].
    change (44 =? 93)%N with false. change (44 =? 44)%N with true. cbn iota.
    rewrite parseRecipe_printRecipe. cbn [mbind option_bind].
    rewrite IH by lia. reflexivity.
Qed.

Lemma printItems_length (rs : list Recipe.t) :
  length rs < length (printItems rs).
Proof.
  induction rs as [|r rs IH]; simpl; [lia|].
  rewrite length_app. lia.
Qed.

Lemma parseRecipes_printRecipes (rs : list Recipe.t) :
  parseRecipes (printRecipes rs) = Some rs.
Proof.
  destruct rs as [|r rs]; [reflexivity|].
  unfold parseRecipes, printRecipes. rewrite expect_app.
  cbn [mbind option_bind].
  assert (Hs : exists tl, printRecipe r ++ printItems rs = 123%N :: 34%N :: tl)
    by (eexists; reflexivity).
  destruct Hs as [tl Hs].
  pose proof (parseRecipe_printRecipe r (printItems rs)) as Hr.
  rewrite Hs in Hr |- *. rewrite Hr. cbn [mbind option_bind].
  rewrite <- (app_nil_r (printItems rs)) at 2.
  rewrite parseItems_printItems by (pose proof (printItems_length rs); lia).
  reflexivity.
Qed.

Lemma parseSettings_printSettings (t : TTSSettings.t N) :
  parseSettings (printSettings t) = Some t.
Proof.
  unfold parseSettings, printSettings.
  rewrite expect_app2. cbn [mbind option_bind].
  rewrite parseNumber_printNumber_comma. cbn [mbind option_bind].
  rewrite expect_app2. cbn [mbind option_bind].
  rewrite parseNumber_printNumber_comma. cbn [mbind option_bind].
  rewrite expect_app2. cbn [mbind option_bind].
  rewrite parseNumber_printNumber_comma. cbn [mbind option_bind].
  rewrite expect_app2. cbn [mbind option_bind].
  rewrite parseString_quote. cbn [mbind option_bind].
  destruct t; reflexivity.
Qed.

Lemma recipes_laws : @JSONLaws (list Recipe.t) recipes.
Proof.
  split; simpl.
  - apply parseRecipes_printRecipes.
  - intros [|r rs]; reflexivity.
Qed.

Lemma settings_laws : @JSONLaws (TTSSettings.t N) settings.
Proof.
  split; simpl.
  - apply parseSettings_printSettings.
  - intros t. reflexivity.
Qed.

End Laws.

End RefJSONLaws.

(** ** The properties on the sample sessions *)

Section Samples.

#[local] Existing Instance RefJSON.recipes.
#[local] Existing Instance RefJSON.settings.

(** Runs a sample session: its final state and world replace [st] and
    [w], and [Hr] says that they are reachable. *)
Ltac enter_session :=
  unfold after;
  match goal with
  | |- match ?s with _ => _ end =>
      let E := fresh "E" in
      destruct s as [?|[st w]] eqn:E; [vm_compute in E; discriminate|];
      pose proof (session_reachable _ _ _ _ _ _ E) as Hr;
      vm_compute in E; injection E as <- <-
  end.

(** C10 on a session that ends [Paused]. *)
Lemma flags_encode_one_playback_state_witness :
  after session_paused (fun st w =>
    isPlaying st && isPaused st = false
    /\ exists s, flags s = (isPlaying st, isPaused st)
         /\ forall s', flags s' = (isPlaying st, isPaused st) -> s' = s).
Proof.
  enter_session. exact (flags_encode_one_playback_state _ _ _ Hr).
Defined.

(** C1 on a session that ends [Playing]: a second start. *)
Lemma one_active_utterance_witness :
  after session_playing (fun st w =>
    length (queue w) <= 1
    /\ exists u st' w',
         handle startSpeech st w = inr (st', w')
         /\ calls w' = calls w ++ [Cancel; Speak u]
         /\ queue w' = [u]
         /\ (u ∉ queue w)
         /\ currentUtterance st' = Some u
         /\ reachable RefJSON.one st' w').
Proof.
  enter_session.
  destruct (one_active_utterance _ _ _ Hr) as [Hq Hstart].
  split; [exact Hq|]. apply Hstart; reflexivity.
Defined.

(** C5 on a text of three spaces. *)
Lemma startSpeech_blank_witness :
  after session_blank (fun st w =>
    forallb isWhiteSpace (recipe st) = true
    /\ exists w',
         handle startSpeech st w = inr (st, w')
         /\ w' = toasted toast_NoContent w
         /\ calls w' = calls w /\ queue w' = queue w
         /\ nextUid w' = nextUid w).
Proof.
  enter_session. split; [reflexivity|].
  apply startSpeech_blank. reflexivity.
Defined.

(** C7 on a session that ends [Paused]. *)
Lemma pause_noop_stop_idle_witness :
  after session_paused (fun st w =>
    playback st = Some Paused
    /\ handle pauseSpeech st w = inr (st, w)
    /\ exists st' w',
         handle stopSpeech st w = inr (st', w')
         /\ playback st' = Some Idle
         /\ currentUtterance st' = None
         /\ queue w' = []
         /\ calls w' = calls w ++ [Cancel]).
Proof.
  enter_session. split; [reflexivity|].
  match goal with
  | |- handle pauseSpeech ?st ?w = _ /\ _ =>
      destruct (pause_noop_stop_idle st w) as [Hpause Hstop]
  end.
  split; [apply Hpause; right; reflexivity|exact Hstop].
Defined.

(** C6, as stated, fails: the component is [Paused] with a current
    utterance and the text was emptied; [startSpeech] shows the "No
    Content" error, does not call [resume], and the component stays
    [Paused]. *)
Lemma startSpeech_paused_blank_stays_paused :
  after session_paused_blank (fun st w =>
    playback st = Some Paused
    /\ is_Some (currentUtterance st)
    /\ exists st' w',
         handle startSpeech st w = inr (st', w')
         /\ playback st' = Some Paused
         /\ calls w' = calls w
         /\ paused w' = true
         /\ toasts w' = toasts w ++ [toast_NoContent]).
Proof.
  enter_session. split; [reflexivity|]. split; [eexists; reflexivity|].
  eexists _, _. split; [vm_compute; reflexivity|]. repeat split.
Qed.

(** C6, amended, on a session that ends [Paused], with a new rate
    and a new voice set before the start. *)
Lemma startSpeech_paused_resumes_witness :
  after session_paused (fun st w =>
    exists st' w',
      run [SlideRate 15%N; SelectVoice (lit "Bob"); ClickStart] st w
        = inr (st', w')
      /\ playback st' = Some Playing
      /\ currentUtterance st' = currentUtterance st
      /\ queue w' = queue w
      /\ paused w' = false
      /\ calls w' = calls w ++ [Resume]
      /\ nextUid w' = nextUid w).
Proof.
  enter_session.
  apply (startSpeech_paused_resumes _ _ _
           [SlideRate 15%N; SelectVoice (lit "Bob")]); reflexivity.
Defined.

(** C4 on a title with a content of three spaces. *)
Lemma saveRecipe_blank_witness :
  after session_blank (fun st w =>
    forallb isWhiteSpace (recipe st) = true
    /\ exists w',
         handle (saveRecipe noon noon) st w = inr (st, w')
         /\ w' = toasted toast_Error w
         /\ localStorage w' = localStorage w).
Proof.
  enter_session. split; [reflexivity|].
  apply saveRecipe_blank. right. reflexivity.
Defined.

(** C3, as stated, fails: two saves at the same reading of the clock
    give two entries with the same id. *)
Lemma saveRecipe_twice_same_id :
  after session_saved_twice (fun st w =>
    Recipe.id <$> savedRecipes st = [lit "1700000000000"; lit "1700000000000"]
    /\ ~ NoDup (Recipe.id <$> savedRecipes st)).
Proof.
  enter_session. split; [reflexivity|].
  intros Hnd. apply NoDup_cons in Hnd as [Hnotin _].
  apply Hnotin. left.
Qed.

(** C3, amended, on the first save of a session. *)
Lemma saveRecipe_appends_witness :
  after session_ready (fun st w =>
    exists st' w',
      handle (saveRecipe noon noon) st w = inr (st', w')
      /\ savedRecipes st' =
           [Recipe.mk (lit "1700000000000") (lit "Soup") soup
              (lit "2023-11-14T22:13:20.000Z")]
      /\ localStorage w' =
           <[lit "savedRecipes" := JSON_stringify (savedRecipes st')]>
             (localStorage w)
      /\ toasts w' = toasts w ++ [toast_Success]
      /\ NoDup (Recipe.id <$> savedRecipes st')).
Proof.
  enter_session.
  match goal with
  | |- exists st' w', handle _ ?st ?w = _ /\ _ =>
      destruct (saveRecipe_appends st w noon noon eq_refl eq_refl)
        as (st' & w' & Hh & Hs & Hl & Ht & Hnd & _)
  end.
  exists st', w'. split; [exact Hh|]. split; [exact Hs|].
  split; [exact Hl|]. split; [exact Ht|].
  apply Hnd; constructor.
Defined.

(** C2, as stated, fails: a stored collection that is not JSON makes
    the mount effect throw, and so does a stored preferences record
    that is not JSON. *)
Lemma mount_corrupt_entry_throws :
  mount RefJSON.one (freshWorld {[ lit "savedRecipes" := lit "{not json" ]} [])
    = inl (Thrown SyntaxError)
  /\ mount RefJSON.one (freshWorld {[ lit "ttsSettings" := lit "{not json" ]} [])
    = inl (Thrown SyntaxError).
Proof. split; vm_compute; reflexivity. Qed.

(** A stored [null] is JSON: the mount effect does not throw on it,
    and goes on with it as the collection, or the preferences; from
    there the component is not followed. *)
Example mount_null_entry_not_followed :
  mount RefJSON.one (freshWorld {[ lit "savedRecipes" := lit "null" ]} [])
    = inl Unmodelled
  /\ mount RefJSON.one (freshWorld {[ lit "ttsSettings" := lit "null" ]} [])
    = inl Unmodelled.
Proof. split; vm_compute; reflexivity. Qed.

(** C8: the user chose the voice Bob; the catalog then reports its two
    voices again, and the voice is Alice, the first of the catalog. *)
Theorem catalog_refresh_overrides_chosen_voice :
  after session_voice_chosen (fun st _ =>
    TTSSettings.voice (ttsSettings st) = lit "Bob")
  /\ after session_voice_refreshed (fun st _ =>
    TTSSettings.voice (ttsSettings st) = lit "Alice").
Proof. split; enter_session; reflexivity. Qed.

(** C9: the user chose the voice Bob and the rate 1.5, and both were
    stored; the component that mounts next on the stored entries has
    the rate 1.5 and the voice Alice. *)
Theorem reload_loses_chosen_voice :
  after session_preferences_set (fun st w =>
    ttsSettings st = TTSSettings.mk N 15%N 10%N 10%N (lit "Bob")
    /\ localStorage w !! lit "ttsSettings"
       = Some (JSON_stringify (ttsSettings st))
    /\ after (ref_session (localStorage w) [alice; bob] []) (fun st' _ =>
         ttsSettings st' = TTSSettings.mk N 15%N 10%N 10%N (lit "Alice"))).
Proof.
  enter_session. split; [reflexivity|]. split; [vm_compute; reflexivity|].
  vm_compute. reflexivity.
Qed.

(** With an empty catalog at mount the stored preferences are read
    back whole. *)
Example reload_reads_back_reference :
  let tts := TTSSettings.mk N 15%N 10%N 10%N (lit "Bob") in
  exists st w,
    mount RefJSON.one
      (freshWorld {[ lit "ttsSettings" := JSON_stringify tts ]} [])
      = inr (st, w)
    /\ ttsSettings st = tts.
Proof.
  intros tts.
  destruct (reload_reads_back RefJSON.one (JSONLaws0 := RefJSONLaws.settings_laws)
              {[ lit "ttsSettings" := JSON_stringify tts ]} [] tts [])
    as (st & w & Hm & _ & _ & _ & Hall).
  - apply lookup_singleton_eq.
  - reflexivity.
  - exists st, w. split; [exact Hm|]. apply Hall. reflexivity.
Qed.

(** *** The further properties on the sample sessions *)

(** X2 on a collection of one recipe and an id that it does not have. *)
Lemma deleteRecipe_absent_witness :
  after session_saved (fun st w =>
    exists w',
      handle (deleteRecipe (lit "42")) st w = inr (st, w')
      /\ localStorage w' =
           <[lit "savedRecipes" := JSON_stringify (savedRecipes st)]>
             (localStorage w)
      /\ toasts w' = toasts w ++ [toast_Deleted]).
Proof.
  enter_session. apply deleteRecipe_absent.
  intros Hin. apply list_elem_of_fmap in Hin as (r & Hid & Hin).
  apply list_elem_of_singleton in Hin. subst r. vm_compute in Hid.
  discriminate Hid.
Defined.

(** X3 on the first save of a session. *)
Lemma save_then_delete_witness :
  after session_ready (fun st w =>
    exists st' w',
      run [ClickSave noon noon; ClickDelete (Number_toString noon)] st w
        = inr (st', w')
      /\ savedRecipes st' = savedRecipes st
      /\ localStorage w' !! lit "savedRecipes"
           = Some (JSON_stringify (savedRecipes st'))).
Proof.
  enter_session.
  match goal with
  | |- exists st' w', run _ ?st ?w = _ /\ _ =>
      destruct (save_then_delete st w noon noon eq_refl eq_refl)
        as (st' & w' & Hrun & _ & Hsame & Hstored)
  end.
  exists st', w'. split; [exact Hrun|]. split; [|exact Hstored].
  apply Hsame. constructor.
Defined.

(** X5 after a save. *)
Lemma saved_recipes_survive_reload_witness :
  after session_saved (fun st w =>
    length (savedRecipes st) = 1
    /\ loaded (localStorage w) (lit "savedRecipes") []
       = Some (savedRecipes st)).
Proof.
  enter_session. split; [reflexivity|].
  exact (saved_recipes_survive_reload RefJSON.one
           (JSONLaws0 := RefJSONLaws.recipes_laws) _ _ Hr).
Defined.

(** X6 after a voice and a rate were set. *)
Lemma preferences_stored_witness :
  after session_preferences_set (fun st w =>
    localStorage w !! lit "ttsSettings"
    = Some (JSON_stringify (ttsSettings st))).
Proof. enter_session. exact (preferences_stored _ _ _ Hr). Defined.

(** X7 with the voices Alice and Bob listed and no voice preferred
    but the first. *)
Lemma startSpeech_builds_utterance_witness :
  after session_idle_voices (fun st w =>
    exists u st' w',
      handle startSpeech st w = inr (st', w')
      /\ currentUtterance st' = Some u
      /\ Utterance.text u = recipe st
      /\ Utterance.rate u = TTSSettings.rate (ttsSettings st)
      /\ Utterance.pitch u = TTSSettings.pitch (ttsSettings st)
      /\ Utterance.volume u = TTSSettings.volume (ttsSettings st)
      /\ (forall v, Utterance.voice u = Some v ->
            v ∈ availableVoices st
            /\ Voice.name v = TTSSettings.voice (ttsSettings st))
      /\ (Utterance.voice u = None <->
            TTSSettings.voice (ttsSettings st)
              ∉ Voice.name <$> availableVoices st)
      /\ isPlaying st' = isPlaying st /\ isPaused st' = isPaused st
      /\ toasts w' = toasts w).
Proof.
  enter_session. apply startSpeech_builds_utterance; reflexivity.
Defined.

(** X17 on the same session, with the rate 1.5 and the voice Bob. *)
Lemma preference_then_start_witness :
  after session_idle_voices (fun st w =>
    (exists u st' w',
       run [SlideRate 15%N; ClickStart] st w = inr (st', w')
       /\ currentUtterance st' = Some u /\ Utterance.rate u = 15%N)
    /\ exists u v st' w',
         run [SelectVoice (lit "Bob"); ClickStart] st w = inr (st', w')
         /\ currentUtterance st' = Some u
         /\ Utterance.voice u = Some v
         /\ Voice.name v = lit "Bob" /\ v ∈ availableVoices st).
Proof.
  enter_session.
  match goal with
  | |- (exists u st' w', run _ ?st ?w = _ /\ _) /\ _ =>
      destruct (preference_then_start st w eq_refl eq_refl) as [Hrate Hvoice]
  end.
  split; [apply Hrate|]. apply Hvoice.
  apply list_elem_of_fmap. exists bob. split; [reflexivity|].
  right. left.
Defined.

(** X8 on a session that is [Idle] with a text. *)
Lemma playback_cycle_witness :
  after session_ready (fun st w =>
    (exists u w',
       run [ClickStart; OnStart; Dequeue; OnEnd] st w = inr (st, w')
       /\ calls w' = calls w ++ [Cancel; Speak u]
       /\ queue w' = [] /\ toasts w' = toasts w)
    /\ (exists u w',
       run [ClickStart; OnStart; Dequeue; OnError] st w = inr (st, w')
       /\ calls w' = calls w ++ [Cancel; Speak u]
       /\ queue w' = [] /\ toasts w' = toasts w ++ [toast_SpeechError])).
Proof. enter_session. apply playback_cycle; reflexivity. Defined.

(** X9 on a session that ends [Playing]. *)
Lemma pause_then_resume_witness :
  after session_playing (fun st w =>
    exists w',
      run [ClickPause; ClickStart] st w = inr (st, w')
      /\ calls w' = calls w ++ [Pause; Resume]
      /\ queue w' = queue w /\ paused w' = false
      /\ nextUid w' = nextUid w).
Proof. enter_session. eapply pause_then_resume; reflexivity. Defined.

(** X10 on a session that ends [Paused]. *)
Lemma paused_flag_means_engine_paused_witness :
  after session_paused (fun st w => isPaused st = true /\ paused w = true).
Proof.
  enter_session. split; [reflexivity|].
  exact (paused_flag_means_engine_paused _ _ _ Hr eq_refl).
Defined.

(** X11 on a session that ends [Playing]. *)
Lemma stop_leaves_engine_paused_witness :
  after session_playing (fun st w =>
    exists u st' w',
      run [ClickPause; ClickStop; ClickStart] st w = inr (st', w')
      /\ calls w' = calls w ++ [Pause; Cancel; Cancel; Speak u]
      /\ queue w' = [u]
      /\ paused w' = true
      /\ playback st' = Some Idle).
Proof. enter_session. apply stop_leaves_engine_paused; reflexivity. Defined.

(** X12 on a session with one start. *)
Lemma cancel_before_every_speak_witness :
  after session_playing (fun st w =>
    length (calls w) = 2 /\ speak_follows_cancel (calls w)).
Proof.
  enter_session. split; [reflexivity|].
  exact (cancel_before_every_speak _ _ _ Hr).
Defined.

(** X13 after the catalog reported its voices. *)
Lemma availableVoices_is_catalog_witness :
  after session_voice_chosen (fun st w =>
    availableVoices st = [alice; bob] /\ availableVoices st = voices w).
Proof.
  enter_session. split; [reflexivity|].
  exact (availableVoices_is_catalog _ _ _ Hr).
Defined.

(** X15 on a stored voice Bob and a catalog that is empty. *)
Lemma mount_again_witness :
  let stored : gmap jsstring jsstring :=
    {[ lit "ttsSettings" :=
         JSON_stringify (TTSSettings.mk N 15%N 10%N 10%N (lit "Bob")) ]} in
  match mount RefJSON.one (freshWorld stored []) with
  | inr (st, w) =>
      TTSSettings.voice (ttsSettings st) = lit "Bob"
      /\ mount RefJSON.one (freshWorld (localStorage w) []) = inr (st, w)
  | inl _ => False
  end.
Proof.
  intros stored.
  destruct (mount RefJSON.one (freshWorld stored [])) as [x|[st w]] eqn:E;
    [vm_compute in E; discriminate E|].
  split.
  - vm_compute in E. injection E as <- _. reflexivity.
  - exact (mount_again RefJSON.one (JSONLaws0 := RefJSONLaws.settings_laws)
             stored [] st w E).
Defined.

(** X16 on a session of the form: a title, a text and a save. *)
Lemma form_never_shows_save_error_witness :
  after session_saved (fun st w =>
    toasts w = [toast_Success] /\ toast_Error ∉ toasts w).
Proof.
  unfold after.
  destruct session_saved as [x|[st w]] eqn:E;
    [vm_compute in E; discriminate E|].
  assert (Hf : reachable_by_form RefJSON.one st w).
  { apply (session_by_form RefJSON.one ∅ [] events_saved); [|exact E].
    vm_compute. repeat split. }
  split; [|exact (form_never_shows_save_error _ _ _ Hf)].
  vm_compute in E. injection E as <- <-. reflexivity.
Defined.

(** X18 on a run that saves, tries to save a blank text and deletes
    nothing. *)
Lemma saved_recipes_stay_filled_in_witness :
  after session_ready (fun st w =>
    exists st' w',
      run [ClickSave noon noon; ChangeRecipe (lit "   ");
           ClickSave noon noon; ClickDelete (lit "42")] st w = inr (st', w')
      /\ length (savedRecipes st') = 1
      /\ Forall filledIn (savedRecipes st')).
Proof.
  enter_session.
  match goal with
  | |- exists st' w', run ?es ?st ?w = _ /\ _ =>
      destruct (run es st w) as [x|[st' w']] eqn:Erun;
        [vm_compute in Erun; discriminate Erun|];
      pose proof (saved_recipes_stay_filled_in es st w st' w'
                    ltac:(constructor) Erun) as Hall
  end.
  exists st', w'. split; [reflexivity|]. split; [|exact Hall].
  vm_compute in Erun. injection Erun as <- _. reflexivity.
Defined.

End Samples.
